(** * InSAR time-series access layer: extraction, normalisation, caching, alignment

    A shallow embedding of [app.py]: the wide-file readers
    ([read_insar_pid], [read_pred_pid]), the chunked long-file scanner
    ([read_anom_pid_chunked]), the flag normaliser
    ([_normalize_is_anomaly]), the four [lru_cache]d lookups and the
    alignment block of the [display_displacement] callback.

    Modelling conventions.
    - A Python [str] is a [string] whose characters are code points below
      256; [strip] and [lower] follow [str.strip()] and [str.lower()] on
      that range.
    - A [float32] cell is its IEEE-754 binary32 bit pattern; pandas' missing
      value in a float column is NaN.
    - A timestamp is a day number (days since 1970-01-01); the [Date] column
      is taken as already parsed, so [pd.to_datetime] is the identity.
    - A DataFrame is the list of its rows, each paired with its index label.
    - DataFrames are objects: they live in a store and variables hold
      references, so that the in-place column assignment of the aligner and
      the object sharing of [lru_cache] are what they are in Python. *)

From Stdlib Require Import ZArith Ascii String DecimalString.
From stdpp Require Import base tactics option list sorting gmap.

Local Open Scope Z_scope.

(** ** Python string operations *)

Module PyStr.

(** [str.isspace] on one character: TAB..CR, FS..US, space, NEL, NBSP. *)
Definition isspace (c : ascii) : bool :=
  let n := N_of_ascii c in
  ((9 <=? n) && (n <=? 13) || (28 <=? n) && (n <=? 32)
   || (n =? 133) || (n =? 160))%N.

(** [str.lower] on one character: A..Z and the Latin-1 capitals
    (U+00C0..U+00DE without the multiplication sign). *)
Definition lower_char (c : ascii) : ascii :=
  let n := N_of_ascii c in
  if ((65 <=? n) && (n <=? 90)
      || (192 <=? n) && (n <=? 222) && negb (n =? 215))%N
  then ascii_of_N (n + 32) else c.

Fixpoint lower (s : string) : string :=
  match s with
  | EmptyString => EmptyString
  | String c t => String (lower_char c) (lower t)
  end.

Fixpoint lstrip (s : string) : string :=
  match s with
  | EmptyString => EmptyString
  | String c t => if isspace c then lstrip t else s
  end.

Fixpoint rstrip (s : string) : string :=
  match s with
  | EmptyString => EmptyString
  | String c t =>
      match rstrip t with
      | EmptyString => if isspace c then EmptyString else String c EmptyString
      | t' => String c t'
      end
  end.

Definition strip (s : string) : string := rstrip (lstrip s).

(** [x in xs] / [Series.isin] on one value. *)
Definition isin (x : string) (xs : list string) : bool :=
  existsb (String.eqb x) xs.

(** White-space-only text, and text without white space at its start or
    at its end: what [strip] is specified with. *)
Fixpoint all_space (s : string) : bool :=
  match s with
  | EmptyString => true
  | String c t => isspace c && all_space t
  end.

Definition head_ok (s : string) : bool :=
  match s with
  | EmptyString => true
  | String c _ => negb (isspace c)
  end.

Fixpoint last_ok (s : string) : bool :=
  match s with
  | EmptyString => true
  | String c EmptyString => negb (isspace c)
  | String _ t => last_ok t
  end.

End PyStr.

(** ** Cells of the [is_anomaly] column *)

(** The column is read with dtype ["string"] (text or [<NA>]) and holds
    [int8] values once normalised. *)
Inductive Cell : Type :=
  | Str (s : string)
  | NA
  | Int8 (z : Z).

#[global] Instance Cell_eq_dec : EqDecision Cell.
Proof. solve_decision. Defined.

(** [Series.astype(str)] on one cell. *)
Definition astype_str (c : Cell) : string :=
  match c with
  | Str s => s
  | NA => "<NA>"
  | Int8 z => NilZero.string_of_int (Z.to_int z)
  end.

Definition TRUE_LITERALS : list string :=
  ["true"; "1"; "t"; "yes"; "y"]%string.

(** One element of [_normalize_is_anomaly]:
    [s.astype(str).str.strip().str.lower()] then [isin([...])]. *)
Definition normalize_flag (c : Cell) : bool :=
  PyStr.isin (PyStr.lower (PyStr.strip (astype_str c))) TRUE_LITERALS.

(** [_normalize_is_anomaly(s)]: the mask cast to [int8]. *)
Definition _normalize_is_anomaly (s : list Cell) : list Cell :=
  map (fun c => Int8 (Z.b2z (normalize_flag c))) s.

(** ** Exceptions *)

Inductive exn : Type := ValueError | KeyError.

Inductive Result (A : Type) : Type :=
  | Ok (a : A)
  | Raise (e : exn).
Arguments Ok {A} a.
Arguments Raise {A} e.

(** ** Data model *)

Definition Timestamp : Type := Z.

(** IEEE-754 binary32 bit pattern. *)
Definition float32 : Type := Z.

(** [pd.isna] on a float: exponent all ones, mantissa non-zero. *)
Definition isna (x : float32) : bool :=
  (Z.land (Z.shiftr x 23) 255 =? 255) && negb (Z.land x 8388607 =? 0).

(** The quiet NaN that [read_csv] stores for a missing field. *)
Definition NaN : float32 := 2143289344.

(** A row of a series frame: columns [timestamp] and [displacement]
    (or [predicted_value]). *)
Record TimePoint : Type := {
  tp_timestamp : Timestamp;
  tp_value : float32
}.

(** A row of a long-format file, the six columns of [ANOM_USECOLS]. [pid] is
    read with dtype ["string"]: text or missing. *)
Record AnomRow : Type := {
  pid : option string;
  lower_bound : float32;
  upper_bound : float32;
  actual_value : float32;
  predicted_value : float32;
  is_anomaly : Cell
}.

(** A row of an anomaly-band frame. The [timestamp] column does not come
    from the file: it is absent ([None]) until the aligner assigns it. *)
Record AnomalyBandRecord : Type := {
  timestamp : option Timestamp;
  fields : AnomRow
}.

#[global] Instance TimePoint_eq_dec : EqDecision TimePoint.
Proof. solve_decision. Defined.
#[global] Instance AnomRow_eq_dec : EqDecision AnomRow.
Proof. solve_decision. Defined.
#[global] Instance AnomalyBandRecord_eq_dec : EqDecision AnomalyBandRecord.
Proof. solve_decision. Defined.

Definition set_pid (p : option string) (r : AnomRow) : AnomRow :=
  {| pid := p; lower_bound := lower_bound r; upper_bound := upper_bound r;
     actual_value := actual_value r; predicted_value := predicted_value r;
     is_anomaly := is_anomaly r |}.

Definition set_is_anomaly (c : Cell) (r : AnomRow) : AnomRow :=
  {| pid := pid r; lower_bound := lower_bound r; upper_bound := upper_bound r;
     actual_value := actual_value r; predicted_value := predicted_value r;
     is_anomaly := c |}.

Definition set_timestamp (t : Timestamp) (r : AnomalyBandRecord)
  : AnomalyBandRecord :=
  {| timestamp := Some t; fields := fields r |}.

(** ** DataFrames *)

Module DF.

(** Rows in positional order, each with its index label. *)
Abbreviation DataFrame R := (list (nat * R)).

Section Ops.
Context {R : Type}.

Definition index (df : DataFrame R) : list nat := map fst df.
Definition rows (df : DataFrame R) : list R := map snd df.

(** A fresh [RangeIndex] over the given rows. *)
Definition range_index (rs : list R) : DataFrame R :=
  zip (seq 0 (length rs)) rs.

(** [df.reset_index(drop=True)] *)
Definition reset_index (df : DataFrame R) : DataFrame R :=
  range_index (rows df).

(** [df.empty] *)
Definition empty (df : DataFrame R) : bool :=
  match df with [] => true | _ :: _ => false end.

(** [len(df)] *)
Definition len (df : DataFrame R) : nat := length df.

(** [df.tail(n)]: the last [n] rows, labels kept. *)
Definition tail (n : nat) (df : DataFrame R) : DataFrame R :=
  drop (length df - n) df.

(** [df[mask]] for a row predicate: matching rows, labels kept. *)
Definition select (p : R → bool) (df : DataFrame R) : DataFrame R :=
  List.filter (fun ir => p ir.2) df.

(** The order of [sort_values]: rows compared by one integer-valued
    column. *)
Definition key_le (key : R → Z) : relation (nat * R) :=
  fun x y => key x.2 ≤ key y.2.

#[global] Instance key_le_dec key x y : Decision (key_le key x y).
Proof. unfold key_le. apply _. Defined.

(** [df.sort_values(key)]: ascending by that column. pandas does not fix
    the order of rows with equal keys (its default sort is not stable); the
    merge sort here fixes one, and no statement below depends on which. *)
Definition sort_values (key : R → Z) (df : DataFrame R) : DataFrame R :=
  merge_sort (key_le key) df.

(** [pd.concat(parts, ignore_index=True)] *)
Definition concat_ignore_index (parts : list (DataFrame R)) : DataFrame R :=
  range_index (rows (concat parts)).

(** [df[col] = series] where the series was computed from [df] itself
    (same index): positional, row by row. *)
Definition assign {C : Type} (set : C → R → R) (col : list C)
    (df : DataFrame R) : DataFrame R :=
  zip_with (fun ir c => (ir.1, set c ir.2)) df col.

(** [df[col] = array] for a NumPy array: positional, and a [ValueError]
    when the lengths differ. *)
Definition assign_values {C : Type} (set : C → R → R) (col : list C)
    (df : DataFrame R) : Result (DataFrame R) :=
  if decide (length col = length df) then Ok (assign set col df)
  else Raise ValueError.
End Ops.

End DF.

Abbreviation SeriesFrame := (DF.DataFrame TimePoint).
Abbreviation BandFrame := (DF.DataFrame AnomalyBandRecord).

(** ** The source files *)

(** A wide-format CSV after parsing: the header names that follow [Date],
    and one row per date with the fields under those names. A row shorter
    than the header is padded with NaN, as [read_csv] does. *)
Record WideFile : Type := {
  entity_columns : list string;
  wide_rows : list (Timestamp * list float32)
}.

(** A long-format CSV after parsing: its rows in file order. *)
Definition LongFile : Type := list AnomRow.

(** The four data files of the application (immutable while it runs). *)
Record Files : Type := {
  WROC_TS_PATH : WideFile;
  WROC_PRED_PATH : WideFile;
  WROC_A95_PATH : LongFile;
  WROC_A99_PATH : LongFile
}.

(** Position of the first column with the given name. *)
Fixpoint column_position (name : string) (cols : list string) : option nat :=
  match cols with
  | [] => None
  | c :: cols' =>
      if String.eqb c name then Some 0%nat
      else S <$> column_position name cols'
  end.

(** [pd.read_csv(path, usecols=["Date", pid], dtype={pid: "float32"})]
    followed by [df["timestamp"] = pd.to_datetime(df["Date"])], the rename
    of the [pid] column and [drop(columns=["Date"])].
    - A name in [usecols] that is not in the header is a [ValueError]
      ("Usecols do not match columns").
    - With [pid = "Date"] only the date column is selected and read as
      [float32], a [ValueError] on date text; with no rows at all the later
      [drop(columns=["Date"])] finds the column renamed, a [KeyError].
    - With [pid = "timestamp"], a column of the file, the assignment
      [df["timestamp"] = ...] overwrites the column just read and the rename
      turns it into the value column: the frame is left without a column
      named [timestamp]. Nothing raises before the reader's
      [sort_values("timestamp")], which does not find its column, a
      [KeyError]; no frame is returned for this name. *)
Definition read_csv_usecols (f : WideFile) (pid : string)
  : Result SeriesFrame :=
  if String.eqb pid "Date" then
    match wide_rows f with
    | [] => Raise KeyError
    | _ :: _ => Raise ValueError
    end
  else
    match column_position pid (entity_columns f) with
    | None => Raise ValueError
    | Some i =>
        if String.eqb pid "timestamp" then Raise KeyError
        else
          Ok (DF.range_index
                (map (fun r => {| tp_timestamp := r.1;
                                  tp_value := nth i r.2 NaN |})
                     (wide_rows f)))
    end.

(** The body shared by [read_insar_pid] and [read_pred_pid] (the two differ
    in the file they read and in the name given to the value column). *)
Definition read_wide_pid (f : WideFile) (pid : string) : Result SeriesFrame :=
  let pid := PyStr.strip pid in
  match read_csv_usecols f pid with
  | Raise e => Raise e
  | Ok df =>
      (* dropna(subset=[value column]) *)
      let df := DF.select (fun r => negb (isna (tp_value r))) df in
      (* sort_values("timestamp").reset_index(drop=True) *)
      Ok (DF.reset_index (DF.sort_values tp_timestamp df))
  end.

Definition read_insar_pid (fs : Files) (pid : string) : Result SeriesFrame :=
  read_wide_pid (WROC_TS_PATH fs) pid.

Definition read_pred_pid (fs : Files) (pid : string) : Result SeriesFrame :=
  read_wide_pid (WROC_PRED_PATH fs) pid.

(** ** The chunked scanner *)

(** The batches of a [read_csv(..., chunksize=k)] iterator: consecutive
    slices of [k] rows, the last one possibly shorter. *)
Fixpoint chunks_fuel {A : Type} (fuel k : nat) (l : list A) : list (list A) :=
  match fuel with
  | O => []
  | S fuel' =>
      match l with
      | [] => []
      | _ :: _ => take k l :: chunks_fuel fuel' k (drop k l)
      end
  end.

Definition chunks {A : Type} (k : nat) (l : list A) : list (list A) :=
  chunks_fuel (length l) k l.

(** [ch["pid"] == pid] on one cell of a ["string"] column; a missing value
    compares as [<NA>], which boolean indexing treats as false. *)
Definition pid_matches (q : string) (r : AnomRow) : bool :=
  match pid r with
  | Some p => String.eqb p q
  | None => false
  end.

(** [part["is_anomaly"] = _normalize_is_anomaly(part["is_anomaly"])] *)
Definition normalize_column (df : DF.DataFrame AnomRow) : DF.DataFrame AnomRow :=
  DF.assign set_is_anomaly
    (_normalize_is_anomaly (map is_anomaly (DF.rows df))) df.

(** One iteration of the [for ch in pd.read_csv(...)] loop. *)
Definition scan_chunk (q : string) (out : list (DF.DataFrame AnomRow))
    (ch : DF.DataFrame AnomRow) : list (DF.DataFrame AnomRow) :=
  (* ch["pid"] = ch["pid"].str.strip() *)
  let ch :=
    DF.assign set_pid (map (fun r => PyStr.strip <$> pid r) (DF.rows ch)) ch in
  let part := DF.select (pid_matches q) ch in
  if negb (DF.empty part) then out ++ [normalize_column part] else out.

(** [df["pid"].astype(str)] on one cell of the ["string"] column. *)
Definition pid_astype_str (p : option string) : string :=
  match p with Some s => s | None => "<NA>" end.

Definition DEFAULT_CHUNKSIZE : Z := 200000.

(** [read_anom_pid_chunked(path, pid, chunksize)]. A [chunksize] below 1 is
    refused by [read_csv] with a [ValueError]. The frame returned has no
    [timestamp] column. *)
Definition read_anom_pid_chunked (path : LongFile) (q : string)
    (chunksize : Z) : Result BandFrame :=
  let q := PyStr.strip q in
  if chunksize <? 1 then Raise ValueError
  else
    let out :=
      fold_left (scan_chunk q)
        (chunks (Z.to_nat chunksize) (DF.range_index path)) [] in
    match out with
    | [] => Ok []
    | _ :: _ =>
        let df := DF.concat_ignore_index out in
        let df :=
          DF.assign set_pid
            (map (fun r => Some (PyStr.strip (pid_astype_str (pid r))))
                 (DF.rows df)) df in
        let df := normalize_column df in
        let df := DF.reset_index df in
        Ok (map (fun ir => (ir.1, {| timestamp := None; fields := ir.2 |})) df)
    end.

(** ** The scanner's contract *)

Module Scan.
Import DF.

(** What the statement of the scanner's contract speaks of. *)

(** The row's trimmed id is the trimmed query id. *)
Definition matches_query (q : string) (r : AnomRow) : bool :=
  bool_decide (PyStr.strip <$> pid r = Some (PyStr.strip q)).

(** A matching file row as it is returned: id trimmed, flag normalised, the
    four numeric fields as in the file, no timestamp. *)
Definition scanned_row (q : string) (r : AnomRow) : AnomalyBandRecord :=
  {| timestamp := None;
     fields :=
       {| pid := Some (PyStr.strip q);
          lower_bound := lower_bound r; upper_bound := upper_bound r;
          actual_value := actual_value r;
          predicted_value := predicted_value r;
          is_anomaly := Int8 (Z.b2z (normalize_flag (is_anomaly r))) |} |}.

(** Row-level readings of the loop body. *)
Definition strip_pid (r : AnomRow) : AnomRow :=
  set_pid (PyStr.strip <$> pid r) r.

Definition norm_row (r : AnomRow) : AnomRow :=
  set_is_anomaly (Int8 (Z.b2z (normalize_flag (is_anomaly r)))) r.

Definition fix_pid (r : AnomRow) : AnomRow :=
  set_pid (Some (PyStr.strip (pid_astype_str (pid r)))) r.

(** The part one chunk contributes. *)
Definition scan_part (q : string) (ch : DataFrame AnomRow) : DataFrame AnomRow :=
  normalize_column
    (select (pid_matches q)
       (assign set_pid (map (fun r => PyStr.strip <$> pid r) (rows ch)) ch)).

End Scan.

(** ** The object store and the caches *)

(** A reference to a DataFrame object. *)
Abbreviation loc := nat.

(** The four series kinds, one [lru_cache] each. *)
Inductive Kind : Type := KInsar | KPred | KA95 | KA99.

#[global] Instance Kind_eq_dec : EqDecision Kind.
Proof. solve_decision. Defined.

(** [functools.lru_cache(maxsize=512)] on a one-argument function: the
    entries from most to least recently used. *)
Module LRU.

Definition t : Type := list (string * loc).

Definition maxsize : nat := 512.

Fixpoint find (k : string) (c : t) : option loc :=
  match c with
  | [] => None
  | (k', l) :: c' => if String.eqb k' k then Some l else find k c'
  end.

Fixpoint remove (k : string) (c : t) : t :=
  match c with
  | [] => []
  | (k', l) :: c' => if String.eqb k' k then c' else (k', l) :: remove k c'
  end.

(** A hit: the entry moves to the most-recent end. *)
Definition touch (k : string) (l : loc) (c : t) : t := (k, l) :: remove k c.

(** After a miss: nothing if the key got in meanwhile; when full, the new
    entry takes the place of the least recently used one; else it is
    added. *)
Definition put (k : string) (l : loc) (c : t) : t :=
  match find k c with
  | Some _ => c
  | None =>
      if decide (maxsize ≤ length c)%nat then (k, l) :: removelast c
      else (k, l) :: c
  end.

End LRU.

Record State : Type := {
  series : gmap loc SeriesFrame;      (* objects with a value column *)
  bands : gmap loc BandFrame;         (* anomaly-band objects *)
  next_loc : loc;                     (* the next fresh reference *)
  cache : Kind → LRU.t;
  reads : Kind → nat                  (* how often each file was read *)
}.

Definition init : State :=
  {| series := ∅; bands := ∅; next_loc := 0%nat;
     cache := fun _ => []; reads := fun _ => 0%nat |}.

Definition upd {X : Type} (k : Kind) (v : X) (f : Kind → X) : Kind → X :=
  fun k' => if decide (k' = k) then v else f k'.

(** ** Stateful code: a state monad with exceptions *)

Definition M (A : Type) : Type := State → Result A * State.

Definition ret {A : Type} (a : A) : M A := fun s => (Ok a, s).

Definition raise {A : Type} (e : exn) : M A := fun s => (Raise e, s).

Definition bind {A B : Type} (m : M A) (f : A → M B) : M B :=
  fun s =>
    match m s with
    | (Ok a, s') => f a s'
    | (Raise e, s') => (Raise e, s')
    end.

Notation "x <- m ;; k" := (bind m (fun x => k))
  (at level 100, m at next level, right associativity).

(** A new series object. *)
Definition new_series (df : SeriesFrame) : M loc :=
  fun s =>
    (Ok (next_loc s),
     {| series := <[next_loc s := df]> (series s); bands := bands s;
        next_loc := S (next_loc s); cache := cache s; reads := reads s |}).

(** A new anomaly-band object. *)
Definition new_bands (df : BandFrame) : M loc :=
  fun s =>
    (Ok (next_loc s),
     {| series := series s; bands := <[next_loc s := df]> (bands s);
        next_loc := S (next_loc s); cache := cache s; reads := reads s |}).

Definition get_series (l : loc) : M SeriesFrame :=
  fun s => (Ok (series s !!! l), s).

Definition get_bands (l : loc) : M BandFrame :=
  fun s => (Ok (bands s !!! l), s).

(** [a["timestamp"] = values]: the object behind [a] is changed in place. *)
Definition setitem_timestamp (a : loc) (values : list Timestamp) : M unit :=
  fun s =>
    match DF.assign_values set_timestamp values (bands s !!! a) with
    | Raise e => (Raise e, s)
    | Ok df =>
        (Ok (),
         {| series := series s; bands := <[a := df]> (bands s);
            next_loc := next_loc s; cache := cache s; reads := reads s |})
    end.

(** One read of the file of kind [k]. *)
Definition count_read (k : Kind) : M unit :=
  fun s =>
    (Ok (),
     {| series := series s; bands := bands s; next_loc := next_loc s;
        cache := cache s; reads := upd k (S (reads s k)) (reads s) |}).

Definition set_cache (k : Kind) (c : LRU.t) : M unit :=
  fun s =>
    (Ok (),
     {| series := series s; bands := bands s; next_loc := next_loc s;
        cache := upd k c (cache s); reads := reads s |}).

(** The wrapper that [@lru_cache(maxsize=512)] puts around [f]. An
    exception of [f] is not cached. *)
Definition lru_cache (k : Kind) (f : string → M loc) (key : string) : M loc :=
  fun s =>
    match LRU.find key (cache s k) with
    | Some l => (_ <- set_cache k (LRU.touch key l (cache s k));; ret l) s
    | None =>
        (l <- f key;;
         fun s' => (_ <- set_cache k (LRU.put key l (cache s' k));; ret l) s') s
    end.

(** The reader of a series file, returning a new object. *)
Definition fetch_series (k : Kind) (r : Result SeriesFrame) : M loc :=
  _ <- count_read k;;
  match r with
  | Raise e => raise e
  | Ok df => new_series df
  end.

Definition fetch_bands (k : Kind) (r : Result BandFrame) : M loc :=
  _ <- count_read k;;
  match r with
  | Raise e => raise e
  | Ok df => new_bands df
  end.

Section App.
Variable fs : Files.

Definition cached_insar : string → M loc :=
  lru_cache KInsar (fun pid => fetch_series KInsar (read_insar_pid fs pid)).

Definition cached_pred : string → M loc :=
  lru_cache KPred (fun pid => fetch_series KPred (read_pred_pid fs pid)).

Definition cached_a95 : string → M loc :=
  lru_cache KA95
    (fun pid =>
       fetch_bands KA95
         (read_anom_pid_chunked (WROC_A95_PATH fs) pid DEFAULT_CHUNKSIZE)).

Definition cached_a99 : string → M loc :=
  lru_cache KA99
    (fun pid =>
       fetch_bands KA99
         (read_anom_pid_chunked (WROC_A99_PATH fs) pid DEFAULT_CHUNKSIZE)).

(** The alignment block of [display_displacement], written there once for
    [a95] and once for [a99]:
    [if not pred.empty and not a.empty:
       n = min(len(pred), len(a))
       pred_tail = pred.tail(n).reset_index(drop=True)
       a = a.tail(n).reset_index(drop=True)
       a["timestamp"] = pred_tail["timestamp"].values]
    The result is the object that the variable [a] refers to afterwards.
    (The [is not None] tests are always true: the lookups return
    DataFrames.) *)
Definition align (pred a : loc) : M loc :=
  p <- get_series pred;;
  b <- get_bands a;;
  if negb (DF.empty p) && negb (DF.empty b) then
    let n := Nat.min (DF.len p) (DF.len b) in
    pred_tail <- new_series (DF.reset_index (DF.tail n p));;
    a' <- new_bands (DF.reset_index (DF.tail n b));;
    pt <- get_series pred_tail;;
    _ <- setitem_timestamp a' (map tp_timestamp (DF.rows pt));;
    ret a'
  else ret a.

(** What the callback hands to the page: nothing to show, or the figure's
    data (the four frames the traces are drawn from). *)
Inductive Output : Type :=
  | Hidden
  | Shown (insar pred : SeriesFrame) (a95 a99 : BandFrame).

(** [display_displacement(clickData)]; [clickData] is [None] or carries
    the hover text of the clicked point. *)
Definition display_displacement (clickData : option string) : M Output :=
  match clickData with
  | None => ret Hidden
  | Some hovertext =>
      let point_id := PyStr.strip hovertext in
      insar <- cached_insar point_id;;
      i <- get_series insar;;
      if DF.empty i then ret Hidden
      else
        pred <- cached_pred point_id;;
        a95 <- cached_a95 point_id;;
        a99 <- cached_a99 point_id;;
        p <- get_series pred;;
        pred <- (if negb (DF.empty p)
                 then new_series
                        (DF.reset_index (DF.sort_values tp_timestamp p))
                 else ret pred);;
        a95 <- align pred a95;;
        a99 <- align pred a99;;
        i <- get_series insar;;
        p <- get_series pred;;
        b95 <- get_bands a95;;
        b99 <- get_bands a99;;
        ret (Shown i p b95 b99)
  end.
End App.

(** ** The wide readers' contract *)

(** The rows of a wide file that have a value in entity column [i], in file
    order. *)
Definition valid_rows (f : WideFile) (i : nat) : list TimePoint :=
  List.filter (fun r => negb (isna (tp_value r)))
    (map (fun r => {| tp_timestamp := r.1; tp_value := nth i r.2 NaN |})
         (wide_rows f)).

(** ** What the statements about the store and the caches speak of *)

(** The four lookups by kind. *)
Definition cached (fs : Files) (k : Kind) : string → M loc :=
  match k with
  | KInsar => cached_insar fs
  | KPred => cached_pred fs
  | KA95 => cached_a95 fs
  | KA99 => cached_a99 fs
  end.

(** A frame of either shape. *)
Definition Frame : Type := SeriesFrame + BandFrame.

(** What the underlying reader of kind [k] computes for an id. *)
Definition reader (fs : Files) (k : Kind) (key : string) : Result Frame :=
  match k with
  | KInsar =>
      match read_insar_pid fs key with Ok df => Ok (inl df) | Raise e => Raise e end
  | KPred =>
      match read_pred_pid fs key with Ok df => Ok (inl df) | Raise e => Raise e end
  | KA95 =>
      match read_anom_pid_chunked (WROC_A95_PATH fs) key DEFAULT_CHUNKSIZE with
      | Ok df => Ok (inr df)
      | Raise e => Raise e
      end
  | KA99 =>
      match read_anom_pid_chunked (WROC_A99_PATH fs) key DEFAULT_CHUNKSIZE with
      | Ok df => Ok (inr df)
      | Raise e => Raise e
      end
  end.

(** The object of kind [k] behind a reference, if there is one. *)
Definition object (s : State) (k : Kind) (l : loc) : option Frame :=
  match k with
  | KInsar | KPred => inl <$> series s !! l
  | KA95 | KA99 => inr <$> bands s !! l
  end.

(** Every object that exists in [s] is the same in [s']. *)
Definition preserved (s s' : State) : Prop :=
  (next_loc s ≤ next_loc s')%nat
  ∧ ∀ l, (l < next_loc s)%nat →
         series s' !! l = series s !! l ∧ bands s' !! l = bands s !! l.

(** A cache entry holds what its reader computes for its key. *)
Definition entry_ok (fs : Files) (s : State) (k : Kind) (key : string)
    (l : loc) : Prop :=
  (l < next_loc s)%nat
  ∧ ∃ v, object s k l = Some v ∧ reader fs k key = Ok v.

(** The caches are within their bound and every entry is as computed. *)
Definition consistent (fs : Files) (s : State) : Prop :=
  ∀ k, (length (cache s k) ≤ LRU.maxsize)%nat
       ∧ ∀ key l, (key, l) ∈ cache s k → entry_ok fs s k key l.

(** The states of a running application: it starts in [init], and each
    request is one lookup or one click. *)
Inductive reachable (fs : Files) : State → Prop :=
  | reach_init : reachable fs init
  | reach_cached k key s :
      reachable fs s → reachable fs (cached fs k key s).2
  | reach_click clickData s :
      reachable fs s → reachable fs (display_displacement fs clickData s).2.

(** The states a lookup can leave. A hit moves the entry to the front. *)
Definition touched (s : State) (k : Kind) (key : string) (l : loc) : State :=
  {| series := series s; bands := bands s; next_loc := next_loc s;
     cache := upd k (LRU.touch key l (cache s k)) (cache s);
     reads := reads s |}.

(** A miss whose reader raises: the file was read, nothing is cached. *)
Definition failed (s : State) (k : Kind) : State :=
  {| series := series s; bands := bands s; next_loc := next_loc s;
     cache := cache s; reads := upd k (S (reads s k)) (reads s) |}.

(** A miss whose reader returns [v]: the file was read, [v] is a new object
    and the cache of kind [k] refers to it. *)
Definition filled (s : State) (k : Kind) (key : string) (v : Frame) : State :=
  {| series :=
       match v with
       | inl df => <[next_loc s := df]> (series s)
       | inr _ => series s
       end;
     bands :=
       match v with
       | inl _ => bands s
       | inr df => <[next_loc s := df]> (bands s)
       end;
     next_loc := S (next_loc s);
     cache := upd k (LRU.put key (next_loc s) (cache s k)) (cache s);
     reads := upd k (S (reads s k)) (reads s) |}.

(** The reader of a series kind returns a series frame, that of a band kind
    a band frame. *)
Definition shape_ok (k : Kind) (v : Frame) : Prop :=
  match k, v with
  | (KInsar | KPred), inl _ => True
  | (KA95 | KA99), inr _ => True
  | _, _ => False
  end.

(** A computation keeps the caches consistent and every existing object as
    it is. *)
Definition step_ok (fs : Files) {A : Type} (m : M A) : Prop :=
  ∀ s, consistent fs s → consistent fs (m s).2 ∧ preserved s (m s).2.

(** ** The callback as a function of the files *)

(** The alignment block on values: what the variable [a] holds afterwards,
    given what [pred] and [a] held before. *)
Definition align_frames (p : SeriesFrame) (b : BandFrame) : BandFrame :=
  if negb (DF.empty p) && negb (DF.empty b) then
    let n := Nat.min (DF.len p) (DF.len b) in
    let pred_tail := DF.reset_index (DF.tail n p) in
    DF.assign set_timestamp (map tp_timestamp (DF.rows pred_tail))
      (DF.reset_index (DF.tail n b))
  else b.

(** [display_displacement] with every cached lookup replaced by a call of
    the reader it wraps: no store, no cache. *)
Definition display_uncached (fs : Files) (clickData : option string)
  : Result Output :=
  match clickData with
  | None => Ok Hidden
  | Some hovertext =>
      let point_id := PyStr.strip hovertext in
      match read_insar_pid fs point_id with
      | Raise e => Raise e
      | Ok insar =>
          if DF.empty insar then Ok Hidden
          else
            match read_pred_pid fs point_id with
            | Raise e => Raise e
            | Ok pred =>
                match read_anom_pid_chunked (WROC_A95_PATH fs) point_id
                        DEFAULT_CHUNKSIZE with
                | Raise e => Raise e
                | Ok a95 =>
                    match read_anom_pid_chunked (WROC_A99_PATH fs) point_id
                            DEFAULT_CHUNKSIZE with
                    | Raise e => Raise e
                    | Ok a99 =>
                        let pred :=
                          if negb (DF.empty pred)
                          then DF.reset_index
                                 (DF.sort_values tp_timestamp pred)
                          else pred in
                        Ok (Shown insar pred (align_frames pred a95)
                              (align_frames pred a99))
                    end
                end
            end
      end
  end.

(** A reference to a live object holding the given frame. *)
Definition series_at (s : State) (l : loc) (df : SeriesFrame) : Prop :=
  (l < next_loc s)%nat ∧ series s !! l = Some df.

Definition bands_at (s : State) (l : loc) (df : BandFrame) : Prop :=
  (l < next_loc s)%nat ∧ bands s !! l = Some df.

(** No key occurs twice in a cache. *)
Definition keys_unique (s : State) : Prop :=
  ∀ k, NoDup (cache s k).*1.

(** A computation keeps a property of the state. *)
Definition keeps (I : State → Prop) {A : Type} (m : M A) : Prop :=
  ∀ s, I s → I (m s).2.

(** ** The figure *)

(** One trace of the figure: its legend name, its drawing mode, and the
    points it is drawn from. An x value is a timestamp, or missing. *)
Record Trace : Type := {
  trace_name : string;
  trace_mode : string;
  trace_x : list (option Timestamp);
  trace_y : list float32
}.

(** ["timestamp" in a.columns]. A band frame has the column when its rows
    carry a timestamp: the frames of the scanner carry none, the frames of
    the aligner carry one in every row. *)
Definition has_timestamp_column (b : BandFrame) : bool :=
  forallb (fun ir => bool_decide (is_Some (timestamp ir.2))) b.

(** [a["is_anomaly"] == 1] on one cell: text never equals the number. *)
Definition is_one (c : Cell) : bool :=
  match c with
  | Int8 z => z =? 1
  | Str _ | NA => false
  end.

(** A trace over all rows of a series frame. *)
Definition series_trace (name mode : string) (df : SeriesFrame) : Trace :=
  {| trace_name := name; trace_mode := mode;
     trace_x := map (fun r => Some (tp_timestamp r)) (DF.rows df);
     trace_y := map tp_value (DF.rows df) |}.

(** A trace over all rows of a band frame, for one of its numeric columns. *)
Definition band_trace (name mode : string) (col : AnomRow → float32)
    (df : BandFrame) : Trace :=
  {| trace_name := name; trace_mode := mode;
     trace_x := map timestamp (DF.rows df);
     trace_y := map (fun r => col (fields r)) (DF.rows df) |}.

(** The traces of one anomaly band ([level] is ["95"] or ["99"]): the two
    bounds, and the anomalies if there are any; nothing for a frame that is
    empty or has no [timestamp] column. *)
Definition band_traces (level : string) (a : BandFrame) : list Trace :=
  if negb (DF.empty a) && has_timestamp_column a then
    [band_trace ("Upper Bound p=" ++ level) "lines" upper_bound a;
     band_trace ("Lower Bound p=" ++ level) "lines" lower_bound a]
    ++ (let an := DF.select (fun r => is_one (is_anomaly (fields r))) a in
        if negb (DF.empty an)
        then [band_trace ("Anomalies p=" ++ level) "markers" actual_value an]
        else [])
  else [].

(** The figure [display_displacement] builds from the four frames:
    [px.line] over the displacement series, then the [add_scatter] calls in
    the order of the source. *)
Definition figure (insar pred : SeriesFrame) (a95 a99 : BandFrame)
  : list Trace :=
  [series_trace "" "lines+markers" insar;
   series_trace "InSAR measured displacement" "lines+markers" insar]
  ++ (if negb (DF.empty pred)
      then [series_trace "Predicted Displacement" "lines+markers" pred]
      else [])
  ++ band_traces "95" a95
  ++ band_traces "99" a99.

(** What the callback returns to the page: no figure in a hidden container
    ([{}, {"display": "none"}]), or the figure in a visible one. *)
Definition render (o : Output) : option (list Trace) :=
  match o with
  | Hidden => None
  | Shown insar pred a95 a99 => Some (figure insar pred a95 a99)
  end.

(** A trace is drawable: as many x as y values, no x value missing, and
    every x value a date of the prediction frame [p]. *)
Definition trace_ok (p : SeriesFrame) (t : Trace) : Prop :=
  length (trace_x t) = length (trace_y t)
  ∧ Forall is_Some (trace_x t)
  ∧ trace_x t ⊆ Some <$> (tp_timestamp <$> DF.rows p).

(** ** What the aligner's contract speaks of *)

(** The last [n] elements of a sequence. *)
Definition last_n {A : Type} (n : nat) (l : list A) : list A :=
  drop (length l - n) l.

(** The state the alignment block leaves when both sides have rows: two new
    objects, [pred_tail] and the new [a], and nothing else touched. *)
Definition aligned_state (s : State) (pred a : loc) : State :=
  let p := series s !!! pred in
  let b := bands s !!! a in
  let n := Nat.min (DF.len p) (DF.len b) in
  let pred_tail := DF.reset_index (DF.tail n p) in
  let a0 := DF.reset_index (DF.tail n b) in
  {| series := <[next_loc s := pred_tail]> (series s);
     bands :=
       <[S (next_loc s) :=
           DF.assign set_timestamp (map tp_timestamp (DF.rows pred_tail)) a0]>
         (<[S (next_loc s) := a0]> (bands s));
     next_loc := S (S (next_loc s));
     cache := cache s; reads := reads s |}.

(** ** Example data *)

Module Ex.

(** 2020-01-01, 2020-01-02, 2020-01-03 as day numbers. *)
Definition d1 : Timestamp := 18262.
Definition d2 : Timestamp := 18263.
Definition d3 : Timestamp := 18264.

(** 5.0 and 6.0 as binary32 (0x40A00000, 0x40C00000). *)
Definition v5 : float32 := 1084227584.
Definition v6 : float32 := 1086324736.

(** Header [Date,E1]; rows [2020-01-01,5.0], [2020-01-02,NaN],
    [2020-01-03,6.0]. *)
Definition wide_E1 : WideFile :=
  {| entity_columns := ["E1"%string];
     wide_rows := [(d1, [v5]); (d2, [NaN]); (d3, [v6])] |}.

(** Header [Date,E1]; two rows dated 2020-01-01. *)
Definition wide_dup : WideFile :=
  {| entity_columns := ["E1"%string];
     wide_rows := [(d1, [v5]); (d1, [v6])] |}.

Definition files_E1 : Files :=
  {| WROC_TS_PATH := wide_E1; WROC_PRED_PATH := wide_E1;
     WROC_A95_PATH := []; WROC_A99_PATH := [] |}.

Definition files_dup : Files :=
  {| WROC_TS_PATH := wide_dup; WROC_PRED_PATH := wide_dup;
     WROC_A95_PATH := []; WROC_A99_PATH := [] |}.

(** A prediction series of 10 days and an anomaly sequence of 7 records,
    held by two objects of an otherwise empty store. *)
Definition pred10 : SeriesFrame :=
  DF.range_index
    (map (fun k => {| tp_timestamp := d1 + Z.of_nat k; tp_value := v5 |})
         (seq 0 10)).

Definition band7 : BandFrame :=
  DF.range_index
    (map (fun k =>
            {| timestamp := None;
               fields :=
                 {| pid := Some "E1"%string; lower_bound := Z.of_nat k;
                    upper_bound := v6; actual_value := v5;
                    predicted_value := v5; is_anomaly := Int8 0 |} |})
         (seq 0 7)).

Definition state_10_7 : State :=
  {| series := {[ 0%nat := pred10 ]}; bands := {[ 1%nat := band7 ]};
     next_loc := 2%nat; cache := fun _ => []; reads := fun _ => 0%nat |}.

(** A prediction object and an anomaly object without rows. *)
Definition state_pred_only : State :=
  {| series := {[ 0%nat := pred10 ]}; bands := {[ 1%nat := [] ]};
     next_loc := 2%nat; cache := fun _ => []; reads := fun _ => 0%nat |}.

(** An anomaly object and a prediction object without rows. *)
Definition state_band_only : State :=
  {| series := {[ 0%nat := [] ]}; bands := {[ 1%nat := band7 ]};
     next_loc := 2%nat; cache := fun _ => []; reads := fun _ => 0%nat |}.

(** A displacement file whose [E1] column has no value at all, next to a
    prediction file and an anomaly file that do have rows for [E1]. *)
Definition wide_nan : WideFile :=
  {| entity_columns := ["E1"%string]; wide_rows := [(d1, [NaN]); (d2, [NaN])] |}.

Definition long_E1 : LongFile :=
  [ {| pid := Some " E1"%string; lower_bound := v5; upper_bound := v6;
       actual_value := v5; predicted_value := v5;
       is_anomaly := Str "True"%string |};
    {| pid := Some "E2"%string; lower_bound := v5; upper_bound := v6;
       actual_value := v5; predicted_value := v5;
       is_anomaly := Str "no"%string |};
    {| pid := Some "E1 "%string; lower_bound := v5; upper_bound := v6;
       actual_value := v6; predicted_value := v5;
       is_anomaly := Str "0"%string |} ].

Definition files_gap : Files :=
  {| WROC_TS_PATH := wide_nan; WROC_PRED_PATH := wide_E1;
     WROC_A95_PATH := long_E1; WROC_A99_PATH := long_E1 |}.

Definition files_full : Files :=
  {| WROC_TS_PATH := wide_E1; WROC_PRED_PATH := wide_E1;
     WROC_A95_PATH := long_E1; WROC_A99_PATH := long_E1 |}.

End Ex.

(** * The provisioning script ([scripts/download_data.py]) *)

Module Download.

(** The files the script provides. *)
Definition FILES : list string :=
  ["wroclaw_caly.csv"; "wroclaw_geo.csv"; "predictions_ml.csv";
   "anomaly_95.csv"; "anomaly_99.csv"]%string.

Definition startswith_sep (s : string) : bool :=
  match s with
  | String c _ => Ascii.eqb c "/"
  | EmptyString => false
  end.

Fixpoint endswith_sep (s : string) : bool :=
  match s with
  | EmptyString => false
  | String c EmptyString => Ascii.eqb c "/"
  | String _ t => endswith_sep t
  end.

(** What [os.path.join(a, b)] puts before a relative [b]. *)
Definition join_prefix (a : string) : string :=
  if String.eqb a "" || endswith_sep a then a else (a ++ "/")%string.

(** [os.path.join(a, b)] (POSIX). *)
Definition path_join (a b : string) : string :=
  if startswith_sep b then b else (join_prefix a ++ b)%string.

(** One asset of the release, as the API lists it. *)
Record Asset : Type := {
  asset_name : string;
  browser_download_url : string
}.

(** The remote side: the asset list the release API answers with, and the
    body a download URL answers with; [None] is an HTTP error status, on
    which [raise_for_status] raises. *)
Record Net : Type := {
  release_assets : option (list Asset);
  get : string → option string
}.

(** The local side: the files by path, with their bytes. Directories are
    not modelled ([os.makedirs(..., exist_ok=True)] always succeeds). *)
Abbreviation FS := (gmap string string).

(** How a run ends: normally, with [sys.exit(1)] after printing the missing
    names, or with an exception. *)
Inductive Outcome : Type :=
  | Done
  | Exit1 (missing : list string)
  | HTTPError
  | LookupError.

(** [{a["name"]: a for a in rel.get("assets", [])}]: a later asset of the
    same name replaces an earlier one. *)
Definition assets_by_name (l : list Asset) : gmap string Asset :=
  fold_left (fun m a => <[asset_name a := a]> m) l ∅.

(** [os.path.exists(p) and os.path.getsize(p) > 0] *)
Definition present (fs : FS) (p : string) : bool :=
  match fs !! p with
  | Some c => negb (String.eqb c "")
  | None => false
  end.

(** [download(url, out_path)]: on an error status nothing is written; else
    the body is written to [out_path + ".part"], which then replaces
    [out_path] ([os.replace]). *)
Definition download (net : Net) (url out_path : string) (fs : FS)
  : option FS :=
  match get net url with
  | None => None
  | Some body =>
      let tmp := (out_path ++ ".part")%string in
      let fs := <[tmp := body]> fs in
      Some (match fs !! tmp with
            | Some c => <[out_path := c]> (delete tmp fs)
            | None => fs
            end)
  end.

(** The [for fn in FILES] loop of [main], over the files still to do. *)
Fixpoint fetch (net : Net) (data_dir : string) (assets : gmap string Asset)
    (fns : list string) (fs : FS) : Outcome * FS :=
  match fns with
  | [] => (Done, fs)
  | fn :: rest =>
      let out_path := path_join data_dir fn in
      if present fs out_path then fetch net data_dir assets rest fs
      else
        match assets !! fn with
        | None => (LookupError, fs)
        | Some asset =>
            match download net (browser_download_url asset) out_path fs with
            | None => (HTTPError, fs)
            | Some fs' => fetch net data_dir assets rest fs'
            end
        end
  end.

(** [main()], for the value of [DATA_DIR]. *)
Definition main (net : Net) (data_dir : string) (fs : FS) : Outcome * FS :=
  match release_assets net with
  | None => (HTTPError, fs)
  | Some l =>
      let assets := assets_by_name l in
      let missing :=
        List.filter (fun fn => bool_decide (assets !! fn = None)) FILES in
      match missing with
      | [] => fetch net data_dir assets FILES fs
      | _ :: _ => (Exit1 missing, fs)
      end
  end.

(** The path a file is written to first. *)
Definition part_path (data_dir fn : string) : string :=
  (path_join data_dir fn ++ ".part")%string.

(** A file is in place: it is there and not empty, or it holds the body
    its asset's URL answers with and no temporary file is left beside it. *)
Definition in_place (net : Net) (data_dir : string)
    (assets : gmap string Asset) (fs : FS) (fn : string) : Prop :=
  present fs (path_join data_dir fn) = true
  ∨ ∃ a body,
      assets !! fn = Some a
      ∧ get net (browser_download_url a) = Some body
      ∧ fs !! path_join data_dir fn = Some body
      ∧ fs !! part_path data_dir fn = None.

End Download.

(** Example remote and local sides for the provisioning script. *)
Module DownloadEx.
Import Download.

Definition asset (fn : string) : Asset :=
  {| asset_name := fn; browser_download_url := ("https://host/" ++ fn)%string |}.

(** A release with all five files; every URL answers with a body. *)
Definition net_full : Net :=
  {| release_assets := Some (asset <$> FILES);
     get := fun url => Some ("body of " ++ url)%string |}.

(** A release without the two anomaly files. *)
Definition net_partial : Net :=
  {| release_assets := Some (asset <$> take 3 FILES);
     get := fun url => Some ("body of " ++ url)%string |}.

(** A data directory that already holds one of the files. *)
Definition fs_one : FS :=
  {[ "/var/data/wroclaw_geo.csv"%string := "pid,latitude"%string ]}.

End DownloadEx.

(** * Properties *)

(** ** Trimming *)

Module PyStrFacts.
Import PyStr.


Lemma lstrip_split s :
  ∃ pre, s = (pre ++ lstrip s)%string ∧ all_space pre = true.
Proof.
  induction s as [|c t [pre [Hs Hp]]]; simpl.
  - by exists EmptyString.
  - destruct (isspace c) eqn:Hc.
    + exists (String c pre). simpl. rewrite Hc, Hp. split; [|done].
      change (String c t = String c (pre ++ lstrip t)%string). by f_equal.
    + by exists EmptyString.
Qed.

Lemma lstrip_head_ok s : head_ok (lstrip s) = true.
Proof.
  induction s as [|c t IH]; simpl; [done|].
  destruct (isspace c) eqn:Hc; [done|]. simpl. by rewrite Hc.
Qed.

Lemma lstrip_id s : head_ok s = true → lstrip s = s.
Proof. destruct s as [|c t]; simpl; [done|]. by destruct (isspace c). Qed.

Lemma rstrip_split s :
  ∃ post, s = (rstrip s ++ post)%string ∧ all_space post = true.
Proof.
  induction s as [|c t [post [Hs Hp]]]; simpl.
  - by exists EmptyString.
  - destruct (rstrip t) as [|c' t'] eqn:Ht.
    + change (t = post) in Hs. subst t. destruct (isspace c) eqn:Hc.
      * exists (String c post). simpl. by rewrite Hc, Hp.
      * by exists post.
    + exists post. split; [|done].
      change (String c t = String c (String c' t' ++ post)%string).
      by f_equal.
Qed.

Lemma rstrip_last_ok s : last_ok (rstrip s) = true.
Proof.
  induction s as [|c t IH]; simpl; [done|].
  destruct (rstrip t) as [|c' t'] eqn:Ht.
  - destruct (isspace c) eqn:Hc; simpl; [done|]. by rewrite Hc.
  - exact IH.
Qed.

Lemma rstrip_head_ok s : head_ok s = true → head_ok (rstrip s) = true.
Proof.
  destruct s as [|c t]; simpl; [done|]. intros Hc.
  destruct (rstrip t); [|done].
  destruct (isspace c) eqn:E; simpl in *; [done|]. by rewrite E.
Qed.

Lemma rstrip_idemp s : rstrip (rstrip s) = rstrip s.
Proof.
  induction s as [|c t IH]; simpl; [done|].
  destruct (rstrip t) as [|c' t'] eqn:Ht.
  - destruct (isspace c) eqn:Hc; simpl; [done|]. by rewrite Hc.
  - change (rstrip (String c (String c' t')))
      with (match rstrip (String c' t') with
            | EmptyString =>
                if isspace c then EmptyString else String c EmptyString
            | t'' => String c t''
            end).
    by rewrite IH.
Qed.

(** [strip] removes white space at both ends and nothing else. *)
Lemma strip_spec s :
  ∃ pre post,
    s = (pre ++ strip s ++ post)%string
    ∧ all_space pre = true ∧ all_space post = true
    ∧ head_ok (strip s) = true ∧ last_ok (strip s) = true.
Proof.
  destruct (lstrip_split s) as [pre [Hs Hpre]].
  destruct (rstrip_split (lstrip s)) as [post [Hl Hpost]].
  exists pre, post. unfold strip. split; [congruence|].
  repeat split; auto using rstrip_head_ok, lstrip_head_ok, rstrip_last_ok.
Qed.

Lemma strip_idemp s : strip (strip s) = strip s.
Proof.
  unfold strip.
  rewrite (lstrip_id (rstrip (lstrip s)))
    by auto using rstrip_head_ok, lstrip_head_ok.
  apply rstrip_idemp.
Qed.


End PyStrFacts.

(** ** The flag normaliser *)

Lemma normalize_flag_Int8_b2z (b : bool) : normalize_flag (Int8 (Z.b2z b)) = b.
Proof. by destruct b. Qed.

Lemma _normalize_is_anomaly_idemp (s : list Cell) :
  _normalize_is_anomaly (_normalize_is_anomaly s) = _normalize_is_anomaly s.
Proof.
  unfold _normalize_is_anomaly. rewrite map_map. apply map_ext. intros c.
  by rewrite normalize_flag_Int8_b2z.
Qed.


(** ** DataFrame operations on rows and labels *)

Module DFFacts.
Import DF.

Section Facts.
Context {R : Type}.
Implicit Types (df : DataFrame R) (rs : list R).

Lemma rows_range_index rs : rows (range_index rs) = rs.
Proof.
  unfold rows, range_index. apply snd_zip. by rewrite length_seq.
Qed.

Lemma index_range_index rs : index (range_index rs) = seq 0 (length rs).
Proof.
  unfold index, range_index. apply fst_zip. by rewrite length_seq.
Qed.

Lemma length_range_index rs : length (range_index rs) = length rs.
Proof.
  unfold range_index. rewrite length_zip_with, length_seq. lia.
Qed.

Lemma length_rows df : length (rows df) = length df.
Proof. apply length_map. Qed.

Lemma length_reset_index df : length (reset_index df) = length df.
Proof. unfold reset_index. by rewrite length_range_index, length_rows. Qed.

Lemma rows_reset_index df : rows (reset_index df) = rows df.
Proof. apply rows_range_index. Qed.

Lemma index_reset_index df : index (reset_index df) = seq 0 (length df).
Proof.
  unfold reset_index. by rewrite index_range_index, length_rows.
Qed.

Lemma rows_select p df : rows (select p df) = List.filter p (rows df).
Proof.
  unfold rows, select. induction df as [|[i r] df IH]; simpl; [done|].
  destruct (p r); simpl; by rewrite IH.
Qed.

Lemma rows_tail n df : rows (tail n df) = drop (length df - n) (rows df).
Proof. unfold rows, tail. by rewrite <- fmap_drop. Qed.

Lemma length_tail n df : length (tail n df) = Nat.min n (length df).
Proof. unfold tail. rewrite length_drop. lia. Qed.

Lemma empty_true df : empty df = true ↔ df = [].
Proof. by destruct df. Qed.

Lemma empty_false df : empty df = false ↔ df ≠ [].
Proof. by destruct df. Qed.

(** A frame is determined by its labels and its rows. *)
Lemma frame_eq df1 df2 :
  index df1 = index df2 → rows df1 = rows df2 → df1 = df2.
Proof.
  unfold index, rows. revert df2.
  induction df1 as [|[i r] df1 IH]; intros [|[j q] df2]; simpl; try done.
  intros [= -> Hi] [= -> Hr]. f_equal. by apply IH.
Qed.

Lemma reset_index_as_range df rs : rows df = rs →
  reset_index df = range_index rs.
Proof. intros <-. done. Qed.

Section Assign.
Context {C : Type} (set : C → R → R).

Lemma assign_map (f : R → C) df :
  assign set (map f (rows df)) df
  = map (fun ir => (ir.1, set (f ir.2) ir.2)) df.
Proof.
  unfold assign, rows. induction df as [|[i r] df IH]; simpl; [done|].
  by rewrite IH.
Qed.

Lemma length_assign (col : list C) df :
  length col = length df → length (assign set col df) = length df.
Proof. intros H. unfold assign. rewrite length_zip_with. lia. Qed.

Lemma index_assign (col : list C) df :
  length col = length df → index (assign set col df) = index df.
Proof.
  unfold assign, index. revert col.
  induction df as [|[i r] df IH]; intros [|c col]; simpl; try done.
  intros [= H]. by rewrite IH.
Qed.

Lemma rows_assign (col : list C) df :
  rows (assign set col df) = zip_with (fun r c => set c r) (rows df) col.
Proof.
  unfold assign, rows. revert col.
  induction df as [|[i r] df IH]; intros [|c col]; simpl; try done.
  by rewrite IH.
Qed.
End Assign.

End Facts.

Lemma rows_map_snd {R S : Type} (g : R → S) (df : DataFrame R) :
  rows (map (fun ir => (ir.1, g ir.2)) df) = map g (rows df).
Proof. unfold rows. by rewrite !map_map. Qed.

Lemma map_snd_range_index {R S : Type} (g : R → S) (rs : list R) :
  map (fun ir => (ir.1, g ir.2)) (range_index rs) = range_index (map g rs).
Proof.
  apply frame_eq.
  - unfold index at 1. rewrite map_map. simpl.
    change (index (range_index rs) = index (range_index (map g rs))).
    by rewrite !index_range_index, length_map.
  - by rewrite rows_map_snd, !rows_range_index.
Qed.

End DFFacts.

(** ** Chunking covers the file *)

Lemma chunks_fuel_concat {A : Type} (fuel k : nat) (l : list A) :
  (1 ≤ k)%nat → (length l ≤ fuel)%nat → concat (chunks_fuel fuel k l) = l.
Proof.
  intros Hk. revert l. induction fuel as [|fuel IH]; intros l Hl.
  - destruct l; [done|simpl in Hl; lia].
  - destruct l as [|x t]; [done|].
    cbn [chunks_fuel concat]. rewrite IH.
    + apply take_drop.
    + rewrite length_drop. simpl in *. lia.
Qed.

Lemma chunks_concat {A : Type} (k : nat) (l : list A) :
  (1 ≤ k)%nat → concat (chunks k l) = l.
Proof. intros Hk. by apply chunks_fuel_concat. Qed.

(** ** The chunked scanner *)

Module ScanFacts.
Import DF DFFacts Scan.

Lemma normalize_column_map df :
  normalize_column df = map (fun ir => (ir.1, norm_row ir.2)) df.
Proof.
  unfold normalize_column, _normalize_is_anomaly. rewrite map_map.
  apply (assign_map set_is_anomaly
           (fun r => Int8 (Z.b2z (normalize_flag (is_anomaly r))))).
Qed.

Lemma assign_strip_pid df :
  assign set_pid (map (fun r => PyStr.strip <$> pid r) (rows df)) df
  = map (fun ir => (ir.1, strip_pid ir.2)) df.
Proof. apply (assign_map set_pid (fun r => PyStr.strip <$> pid r)). Qed.

Lemma assign_fix_pid df :
  assign set_pid
    (map (fun r => Some (PyStr.strip (pid_astype_str (pid r)))) (rows df)) df
  = map (fun ir => (ir.1, fix_pid ir.2)) df.
Proof.
  apply (assign_map set_pid
           (fun r => Some (PyStr.strip (pid_astype_str (pid r))))).
Qed.


Lemma rows_scan_part q ch :
  rows (scan_part q ch)
  = map norm_row (List.filter (pid_matches q) (map strip_pid (rows ch))).
Proof.
  unfold scan_part.
  rewrite normalize_column_map, rows_map_snd, rows_select, assign_strip_pid.
  by rewrite rows_map_snd.
Qed.

Lemma scan_chunk_part q out ch :
  concat (scan_chunk q out ch) = concat out ++ scan_part q ch.
Proof.
  unfold scan_chunk, scan_part.
  destruct (select _ _) as [|x part]; cbn [empty negb].
  - by rewrite app_nil_r.
  - rewrite concat_app. cbn [concat]. by rewrite app_nil_r.
Qed.


Lemma scan_loop_concat q cs out :
  concat (fold_left (scan_chunk q) cs out)
  = concat out ++ concat (map (scan_part q) cs).
Proof.
  revert out. induction cs as [|ch cs IH]; intros out; simpl.
  - by rewrite app_nil_r.
  - by rewrite IH, scan_chunk_part, <- app_assoc.
Qed.


Lemma rows_concat_parts q cs :
  rows (concat (map (scan_part q) cs))
  = map norm_row
      (List.filter (pid_matches q) (map strip_pid (rows (concat cs)))).
Proof.
  induction cs as [|ch cs IH]; cbn [map concat]; [done|].
  unfold rows in *. rewrite !map_app, List.filter_app, map_app, <- IH.
  f_equal. apply rows_scan_part.
Qed.

Lemma filter_map_comm {A B : Type} (p : B → bool) (f : A → B) (l : list A) :
  List.filter p (map f l) = map f (List.filter (fun x => p (f x)) l).
Proof.
  induction l as [|x l IH]; simpl; [done|].
  destruct (p (f x)); simpl; by rewrite IH.
Qed.


Lemma pid_matches_strip_pid q r :
  pid_matches (PyStr.strip q) (strip_pid r) = matches_query q r.
Proof.
  unfold pid_matches, matches_query, strip_pid. simpl.
  destruct (pid r) as [p|]; simpl.
  - destruct (String.eqb_spec (PyStr.strip p) (PyStr.strip q)) as [E|E];
      symmetry.
    + apply bool_decide_eq_true_2. by rewrite E.
    + apply bool_decide_eq_false_2. by intros [= ?].
  - done.
Qed.

Lemma returned_row q r :
  matches_query q r = true →
  {| timestamp := None;
     fields := norm_row (fix_pid (norm_row (strip_pid r))) |}
  = scanned_row q r.
Proof.
  unfold matches_query. intros Hm. apply bool_decide_eq_true_1 in Hm.
  unfold scanned_row, norm_row, fix_pid, strip_pid. simpl.
  rewrite normalize_flag_Int8_b2z. rewrite Hm. simpl.
  by rewrite PyStrFacts.strip_idemp.
Qed.

End ScanFacts.



(** ** The wide readers *)

Module WideFacts.
Import DF DFFacts.

Lemma column_position_None name cols :
  column_position name cols = None ↔ name ∉ cols.
Proof.
  induction cols as [|c cols IH]; simpl.
  - split; [intros _; apply not_elem_of_nil|done].
  - destruct (String.eqb_spec c name) as [->|Hne].
    + split; [done|]. intros H. exfalso. apply H. left.
    + rewrite not_elem_of_cons, <- IH.
      destruct (column_position name cols); simpl; [|by split].
      split; [done|]. by intros [_ ?].
Qed.

Lemma column_position_elem_of name cols :
  name ∈ cols → ∃ i, column_position name cols = Some i.
Proof.
  intros Hin. destruct (column_position name cols) as [i|] eqn:E; [eauto|].
  by apply column_position_None in E.
Qed.

#[global] Instance key_le_total {R : Type} (key : R → Z) : Total (key_le key).
Proof. intros x y. unfold key_le. lia. Qed.

Lemma sort_values_Permutation {R : Type} (key : R → Z) (df : DataFrame R) :
  rows (sort_values key df) ≡ₚ rows df.
Proof.
  unfold rows, sort_values. apply fmap_Permutation, merge_sort_Permutation.
Qed.

Lemma sort_values_Sorted {R : Type} (key : R → Z) (df : DataFrame R) :
  Sorted Z.le (key <$> rows (sort_values key df)).
Proof.
  unfold rows, sort_values. rewrite <- list_fmap_compose.
  apply (Sorted_fmap _ (key_le key)); [by intros x y|].
  apply Sorted_merge_sort, _.
Qed.

Lemma Sorted_le_NoDup_lt (l : list Z) : Sorted Z.le l → NoDup l → Sorted Z.lt l.
Proof.
  induction 1 as [|x l Hs IH Hhd]; intros Hnd; [constructor|].
  apply NoDup_cons in Hnd as [Hx Hnd]. constructor; [by apply IH|].
  destruct Hhd as [|y l' Hxy]; constructor.
  assert (x ≠ y) by (intros ->; apply Hx; left). lia.
Qed.

(** What both wide readers return for a column that exists. *)
Lemma read_wide_pid_ok (f : WideFile) (pid : string) (i : nat) :
  PyStr.strip pid ≠ "Date"%string →
  PyStr.strip pid ≠ "timestamp"%string →
  column_position (PyStr.strip pid) (entity_columns f) = Some i →
  ∃ df, read_wide_pid f pid = Ok df
        ∧ rows df ≡ₚ valid_rows f i
        ∧ Sorted Z.le (tp_timestamp <$> rows df)
        ∧ index df = seq 0 (length df).
Proof.
  intros Hdate Hts Hcol. unfold read_wide_pid, read_csv_usecols.
  destruct (String.eqb_spec (PyStr.strip pid) "Date") as [?|_]; [done|].
  rewrite Hcol.
  destruct (String.eqb_spec (PyStr.strip pid) "timestamp") as [?|_]; [done|].
  eexists. split; [reflexivity|].
  rewrite rows_reset_index, index_reset_index, length_reset_index.
  split; [|split; [apply sort_values_Sorted|done]].
  rewrite sort_values_Permutation, rows_select, rows_range_index. done.
Qed.

(** Sortedness read position by position. *)
Lemma Sorted_lt_adjacent (l : list Z) (k : nat) (t t' : Z) :
  Sorted Z.lt l → l !! k = Some t → l !! S k = Some t' → t < t'.
Proof.
  intros Hs. revert k. induction Hs as [|x l Hs IH Hhd]; intros k; [done|].
  destruct k as [|k]; cbn.
  - intros [= ->] Hl. destruct Hhd as [|y l' Hxy]; [done|].
    cbn in Hl. by injection Hl as <-.
  - apply IH.
Qed.

(** A file with one row per date has no two valid rows of the same date,
    whatever the column. *)
Lemma valid_rows_NoDup (f : WideFile) (i : nat) :
  NoDup (wide_rows f).*1 → NoDup (tp_timestamp <$> valid_rows f i).
Proof.
  unfold valid_rows. induction (wide_rows f) as [|r l IH]; [done|].
  cbn [fmap list_fmap map List.filter]. intros [Hr Hl]%NoDup_cons.
  assert (Hsub : ∀ t, t ∈ tp_timestamp <$>
                        List.filter (fun r => negb (isna (tp_value r)))
                          (map (fun r => {| tp_timestamp := r.1;
                                            tp_value := nth i r.2 NaN |}) l)
                      → t ∈ l.*1).
  { intros t (x & -> & Hx)%list_elem_of_fmap.
    apply list_elem_of_In, List.filter_In in Hx as [Hx _].
    apply List.in_map_iff in Hx as (y & <- & Hy).
    apply list_elem_of_fmap. exists y. split; [done|].
    by apply list_elem_of_In. }
  destruct (negb _); [|by apply IH].
  cbn [fmap list_fmap]. apply NoDup_cons. split; [|by apply IH].
  intros Hin. apply Hr. by apply Hsub.
Qed.

(** The two names that collide with the reader's own columns: no frame is
    returned for them, whether the file has such a column or not. *)
Lemma read_wide_pid_reserved (f : WideFile) (pid : string) :
  PyStr.strip pid = "Date"%string ∨ PyStr.strip pid = "timestamp"%string →
  ∃ e, read_wide_pid f pid = Raise e.
Proof.
  unfold read_wide_pid, read_csv_usecols. intros [-> | ->].
  - cbn [String.eqb Ascii.eqb Bool.eqb]. destruct (wide_rows f); eauto.
  - change (String.eqb "timestamp" "Date") with false. cbv iota.
    destruct (column_position _ _); eauto.
Qed.

Lemma read_wide_pid_Ok_name (f : WideFile) (pid : string) (df : SeriesFrame) :
  read_wide_pid f pid = Ok df →
  PyStr.strip pid ≠ "Date"%string ∧ PyStr.strip pid ≠ "timestamp"%string.
Proof.
  intros Hok. split; intros Heq;
    destruct (read_wide_pid_reserved f pid) as [e He]; eauto; congruence.
Qed.

(** An existing column named [timestamp]: the reader's own assignment
    replaces it, and the sort finds no column of that name. *)
Lemma read_wide_pid_timestamp (f : WideFile) (pid : string) :
  PyStr.strip pid = "timestamp"%string →
  "timestamp"%string ∈ entity_columns f →
  read_wide_pid f pid = Raise KeyError.
Proof.
  intros Hts Hin. unfold read_wide_pid, read_csv_usecols. rewrite Hts.
  change (String.eqb "timestamp" "Date") with false. cbv iota.
  destruct (column_position_elem_of _ _ Hin) as [i ->]. done.
Qed.

(** A column that does not exist: the reader raises. *)
Lemma read_wide_pid_absent (f : WideFile) (pid : string) :
  PyStr.strip pid ∉ entity_columns f → ∃ e, read_wide_pid f pid = Raise e.
Proof.
  intros Hcol. unfold read_wide_pid, read_csv_usecols.
  destruct (String.eqb (PyStr.strip pid) "Date").
  - destruct (wide_rows f); eauto.
  - apply column_position_None in Hcol. rewrite Hcol. eauto.
Qed.

End WideFacts.

(** C6. Reading an entity column that exists (any name but the reader's own
    column names [Date] and [timestamp]) returns the rows of the file that
    have a value in that column and no others (a row whose value is missing
    is dropped), sorted ascending by timestamp, under the dense index
    0, 1, ..., n-1. For the file [Date,E1] with rows [2020-01-01,5.0],
    [2020-01-02,NaN], [2020-01-03,6.0], reading E1 returns
    [(2020-01-01,5.0), (2020-01-03,6.0)]. *)
Theorem read_insar_pid_drops_missing :
  (∀ (fs : Files) (pid : string),
     PyStr.strip pid ≠ "Date"%string →
     PyStr.strip pid ≠ "timestamp"%string →
     PyStr.strip pid ∈ entity_columns (WROC_TS_PATH fs) →
     ∃ i df,
       column_position (PyStr.strip pid) (entity_columns (WROC_TS_PATH fs))
       = Some i
       ∧ read_insar_pid fs pid = Ok df
       ∧ DF.rows df ≡ₚ valid_rows (WROC_TS_PATH fs) i
       ∧ Forall (fun r => isna (tp_value r) = false) (DF.rows df)
       ∧ Sorted Z.le (tp_timestamp <$> DF.rows df)
       ∧ DF.index df = seq 0 (length df))
  ∧ read_insar_pid Ex.files_E1 "E1"%string
    = Ok [(0%nat, {| tp_timestamp := Ex.d1; tp_value := Ex.v5 |});
          (1%nat, {| tp_timestamp := Ex.d3; tp_value := Ex.v6 |})].
Proof.
  split; [|reflexivity].
  intros fs pid Hdate Hts Hin.
  destruct (WideFacts.column_position_elem_of _ _ Hin) as [i Hi].
  destruct (WideFacts.read_wide_pid_ok _ _ _ Hdate Hts Hi)
    as [df [Hread [Hperm [Hsorted Hindex]]]].
  exists i, df. repeat split; try done.
  rewrite Hperm. unfold valid_rows. apply Forall_forall.
  intros r Hr. apply list_elem_of_In, List.filter_In in Hr as [_ Hr].
  by apply negb_true_iff in Hr.
Qed.

(** The contract at the example file. *)
Lemma read_insar_pid_drops_missing_witness :
  ∃ i df,
    column_position (PyStr.strip "E1"%string)
      (entity_columns (WROC_TS_PATH Ex.files_E1)) = Some i
    ∧ read_insar_pid Ex.files_E1 "E1"%string = Ok df
    ∧ DF.rows df ≡ₚ valid_rows (WROC_TS_PATH Ex.files_E1) i
    ∧ Forall (fun r => isna (tp_value r) = false) (DF.rows df)
    ∧ Sorted Z.le (tp_timestamp <$> DF.rows df)
    ∧ DF.index df = seq 0 (length df).
Proof.
  apply (proj1 read_insar_pid_drops_missing Ex.files_E1 "E1"%string).
  - discriminate.
  - discriminate.
  - vm_compute. left.
Defined.

(** C7. Reading an entity column that exists (any name but the reader's own
    column names [Date] and [timestamp]) of a file in which no two valid rows
    of that column carry the same date, as in the wide format with its one
    row per timestamp, returns a series whose timestamps are strictly
    increasing: every element's timestamp is strictly greater than the
    previous element's. This holds for any number of valid rows, in
    particular for two or more. *)
Theorem read_insar_pid_sorted (fs : Files) (pid : string) (i : nat) :
  PyStr.strip pid ≠ "Date"%string →
  PyStr.strip pid ≠ "timestamp"%string →
  column_position (PyStr.strip pid) (entity_columns (WROC_TS_PATH fs))
  = Some i →
  NoDup (tp_timestamp <$> valid_rows (WROC_TS_PATH fs) i) →
  ∃ df,
    read_insar_pid fs pid = Ok df
    ∧ length df = length (valid_rows (WROC_TS_PATH fs) i)
    ∧ Sorted Z.lt (tp_timestamp <$> DF.rows df)
    ∧ (∀ (k : nat) (t t' : Timestamp),
         (tp_timestamp <$> DF.rows df) !! k = Some t →
         (tp_timestamp <$> DF.rows df) !! S k = Some t' →
         t < t').
Proof.
  intros Hdate Hts Hi Hnd.
  destruct (WideFacts.read_wide_pid_ok _ _ _ Hdate Hts Hi)
    as [df [Hread [Hperm [Hsorted _]]]].
  assert (Hlt : Sorted Z.lt (tp_timestamp <$> DF.rows df)).
  { apply WideFacts.Sorted_le_NoDup_lt; [done|]. by rewrite Hperm. }
  exists df. split; [done|]. split.
  { by rewrite <- (DFFacts.length_rows df), Hperm. }
  split; [done|]. intros k t t'. by apply WideFacts.Sorted_lt_adjacent.
Qed.

Lemma read_insar_pid_sorted_witness :
  ∃ df,
    read_insar_pid Ex.files_E1 "E1"%string = Ok df
    ∧ length df = length (valid_rows (WROC_TS_PATH Ex.files_E1) 0)
    ∧ Sorted Z.lt (tp_timestamp <$> DF.rows df)
    ∧ (∀ (k : nat) (t t' : Timestamp),
         (tp_timestamp <$> DF.rows df) !! k = Some t →
         (tp_timestamp <$> DF.rows df) !! S k = Some t' →
         t < t').
Proof.
  apply (read_insar_pid_sorted Ex.files_E1 "E1"%string 0).
  - discriminate.
  - discriminate.
  - reflexivity.
  - apply WideFacts.valid_rows_NoDup. vm_compute.
    apply NoDup_cons. split.
    { intros Hin. apply elem_of_cons in Hin as [?|Hin]; [done|].
      apply elem_of_cons in Hin as [?|Hin]; [done|].
      by apply elem_of_nil in Hin. }
    apply NoDup_cons. split.
    { intros Hin. apply elem_of_cons in Hin as [?|Hin]; [done|].
      by apply elem_of_nil in Hin. }
    apply NoDup_singleton.
Defined.

(** The hypothesis on the dates is needed: in a file with two valid rows
    for one date the reader returns both, and the second timestamp is not
    greater than the first. *)
Lemma read_insar_pid_equal_dates :
  ∃ df,
    read_insar_pid Ex.files_dup "E1"%string = Ok df
    ∧ (2 ≤ length (valid_rows (WROC_TS_PATH Ex.files_dup) 0))%nat
    ∧ tp_timestamp <$> DF.rows df = [Ex.d1; Ex.d1]
    ∧ ¬ Sorted Z.lt (tp_timestamp <$> DF.rows df).
Proof.
  eexists. split; [reflexivity|]. split; [vm_compute; lia|].
  split; [reflexivity|].
  intros Hs. apply Sorted_inv in Hs as [_ Hhd].
  apply HdRel_inv in Hhd. vm_compute in Hhd. discriminate.
Qed.

(** C2, at an id that is not a column: both wide readers raise
    [ValueError] where the claim promises an empty series. *)
Theorem read_pid_absent_column_raises :
  read_insar_pid Ex.files_E1 "E2"%string = Raise ValueError
  ∧ read_pred_pid Ex.files_E1 "E2"%string = Raise ValueError
  ∧ (∀ (fs : Files) (pid : string) (df : SeriesFrame),
       PyStr.strip pid ∉ entity_columns (WROC_TS_PATH fs) →
       read_insar_pid fs pid ≠ Ok df).
Proof.
  split; [reflexivity|]. split; [reflexivity|].
  intros fs pid df Hcol Hok.
  destruct (WideFacts.read_wide_pid_absent _ _ Hcol) as [e He].
  unfold read_insar_pid in Hok. congruence.
Qed.

(** ** The aligner *)

Module AlignFacts.
Import DF DFFacts.

Lemma timestamps_assigned (rs : list AnomalyBandRecord) (ts : list Timestamp) :
  length ts = length rs →
  timestamp <$> zip_with (fun r t => set_timestamp t r) rs ts = Some <$> ts.
Proof.
  revert ts. induction rs as [|r rs IH]; intros [|t ts]; simpl; try done.
  intros [= H]. by rewrite IH.
Qed.

Lemma fields_kept (rs : list AnomalyBandRecord) (ts : list Timestamp) :
  length ts = length rs →
  fields <$> zip_with (fun r t => set_timestamp t r) rs ts = fields <$> rs.
Proof.
  revert ts. induction rs as [|r rs IH]; intros [|t ts]; simpl; try done.
  intros [= H]. by rewrite IH.
Qed.

Lemma align_run (s : State) (pred a : loc) :
  series s !!! pred ≠ [] → bands s !!! a ≠ [] →
  align pred a s = (Ok (S (next_loc s)), aligned_state s pred a).
Proof.
  intros Hp Hb. unfold align, aligned_state, bind, get_series, get_bands.
  destruct (series s !!! pred) as [|p0 p]; [done|].
  destruct (bands s !!! a) as [|b0 b]; [done|].
  cbn [empty negb andb]. unfold new_series, new_bands, setitem_timestamp, ret.
  cbn [series bands next_loc cache reads].
  rewrite !lookup_total_insert_eq. unfold assign_values.
  rewrite decide_True; [done|].
  rewrite length_map, length_rows, !length_reset_index, !length_tail.
  unfold len. lia.
Qed.

Lemma align_skip (s : State) (pred a : loc) :
  series s !!! pred = [] ∨ bands s !!! a = [] → align pred a s = (Ok a, s).
Proof.
  intros H. unfold align, bind, get_series, get_bands.
  destruct H as [-> | ->]; [done|].
  by destruct (series s !!! pred).
Qed.

End AlignFacts.

(** C1. When both the prediction series and the anomaly sequence have rows,
    the aligner takes n = min(len(P), len(A)), keeps the last n rows of each
    ([pred_tail] and the new anomaly frame, both re-indexed 0..n-1), and
    gives the last n anomaly records, position by position, the timestamps
    of the last n prediction rows; their other fields are those of the last
    n original records, in order. With 10 predictions and 7 records the
    result has 7 records carrying the last 7 prediction timestamps. *)
Theorem align_tail_truncation (s : State) (pred a : loc) :
  series s !!! pred ≠ [] → bands s !!! a ≠ [] →
  let P := DF.rows (series s !!! pred) in
  let A := DF.rows (bands s !!! a) in
  let n := Nat.min (length P) (length A) in
  ∃ a' s',
    align pred a s = (Ok a', s')
    ∧ series s' !!! next_loc s = DF.range_index (last_n n P)
    ∧ length (bands s' !!! a') = n
    ∧ DF.index (bands s' !!! a') = seq 0 n
    ∧ timestamp <$> DF.rows (bands s' !!! a')
      = Some <$> (tp_timestamp <$> last_n n P)
    ∧ fields <$> DF.rows (bands s' !!! a') = fields <$> last_n n A
    ∧ (length P = 10%nat → length A = 7%nat →
       length (bands s' !!! a') = 7%nat
       ∧ timestamp <$> DF.rows (bands s' !!! a')
         = Some <$> (tp_timestamp <$> last_n 7 P)).
Proof.
  intros Hp Hb P A n.
  exists (S (next_loc s)), (aligned_state s pred a).
  split; [by apply AlignFacts.align_run|].
  unfold aligned_state. cbn [series bands].
  rewrite !lookup_total_insert_eq.
  set (p := series s !!! pred) in *. set (b := bands s !!! a) in *.
  assert (Hn : Nat.min (DF.len p) (DF.len b) = n).
  { unfold n, P, A, DF.len. by rewrite !DFFacts.length_rows. }
  rewrite Hn.
  assert (Hpt : DF.rows (DF.reset_index (DF.tail n p)) = last_n n P).
  { rewrite DFFacts.rows_reset_index, DFFacts.rows_tail. unfold last_n, P.
    by rewrite DFFacts.length_rows. }
  assert (Hat : DF.rows (DF.reset_index (DF.tail n b)) = last_n n A).
  { rewrite DFFacts.rows_reset_index, DFFacts.rows_tail. unfold last_n, A.
    by rewrite DFFacts.length_rows. }
  assert (HlP : length (last_n n P) = n).
  { unfold last_n. rewrite length_drop. lia. }
  assert (HlA : length (last_n n A) = n).
  { unfold last_n. rewrite length_drop. lia. }
  assert (Hlen : length (map tp_timestamp (DF.rows (DF.reset_index (DF.tail n p))))
                 = length (DF.reset_index (DF.tail n b))).
  { rewrite length_map, Hpt, HlP.
    by rewrite <- DFFacts.length_rows, Hat, HlA. }
  assert (Hlen' : length (DF.reset_index (DF.tail n b)) = n).
  { by rewrite <- DFFacts.length_rows, Hat, HlA. }
  assert (Hts : timestamp <$>
                  DF.rows (DF.assign set_timestamp
                             (map tp_timestamp
                                (DF.rows (DF.reset_index (DF.tail n p))))
                             (DF.reset_index (DF.tail n b)))
                = Some <$> (tp_timestamp <$> last_n n P)).
  { rewrite DFFacts.rows_assign, AlignFacts.timestamps_assigned.
    - by rewrite Hpt.
    - by rewrite DFFacts.length_rows. }
  split; [unfold DF.reset_index; by rewrite <- Hpt, DFFacts.rows_reset_index|].
  split; [by rewrite DFFacts.length_assign|].
  split.
  { rewrite DFFacts.index_assign by done.
    rewrite DFFacts.index_reset_index. f_equal.
    by rewrite <- DFFacts.length_reset_index. }
  split; [exact Hts|].
  split.
  { rewrite DFFacts.rows_assign, AlignFacts.fields_kept.
    - by rewrite Hat.
    - by rewrite DFFacts.length_rows. }
  intros H10 H7.
  assert (n = 7%nat) as Hn7 by lia.
  split; [rewrite DFFacts.length_assign by done; lia|].
  by rewrite Hts, Hn7.
Qed.

(** The 10-against-7 instance. *)
Lemma align_tail_truncation_witness :
  ∃ a' s',
    align 0%nat 1%nat Ex.state_10_7 = (Ok a', s')
    ∧ length (bands s' !!! a') = 7%nat
    ∧ timestamp <$> DF.rows (bands s' !!! a')
      = Some <$> (tp_timestamp <$> last_n 7 (DF.rows Ex.pred10)).
Proof.
  destruct (align_tail_truncation Ex.state_10_7 0%nat 1%nat)
    as (a' & s' & Hrun & _ & _ & _ & _ & _ & H107);
    [vm_compute; discriminate ..|].
  exists a', s'. split; [exact Hrun|]. apply H107; reflexivity.
Defined.

(** C8, as the code has it. When the prediction series or the anomaly
    sequence has no rows, the alignment block is skipped without an error:
    the anomaly variable keeps its object and the store is unchanged, so
    the empty side stays empty and the other side keeps all its rows. *)
Theorem align_empty_side (s : State) (pred a : loc) :
  series s !!! pred = [] ∨ bands s !!! a = [] → align pred a s = (Ok a, s).
Proof. apply AlignFacts.align_skip. Qed.

Lemma align_empty_side_witness :
  align 0%nat 1%nat Ex.state_pred_only = (Ok 1%nat, Ex.state_pred_only).
Proof. apply (align_empty_side Ex.state_pred_only 0%nat 1%nat). by right. Defined.

(** C8 as stated fails: with one side empty the pair is not emptied. Ten
    predictions against no anomaly record leave the ten predictions; no
    prediction against seven records leaves the seven records; and a click
    on an entity with predictions and no anomaly rows plots the
    predictions. *)
Lemma align_empty_side_keeps_other :
  (bands Ex.state_pred_only !!! 1%nat = []
   ∧ ∃ a' s', align 0%nat 1%nat Ex.state_pred_only = (Ok a', s')
              ∧ length (series s' !!! 0%nat) = 10%nat
              ∧ bands s' !!! a' = [])
  ∧ (series Ex.state_band_only !!! 0%nat = []
     ∧ ∃ a' s', align 0%nat 1%nat Ex.state_band_only = (Ok a', s')
                ∧ series s' !!! 0%nat = []
                ∧ length (bands s' !!! a') = 7%nat)
  ∧ ∃ s',
      display_displacement Ex.files_E1 (Some "E1"%string) init
      = (Ok (Shown
               [(0%nat, {| tp_timestamp := Ex.d1; tp_value := Ex.v5 |});
                (1%nat, {| tp_timestamp := Ex.d3; tp_value := Ex.v6 |})]
               [(0%nat, {| tp_timestamp := Ex.d1; tp_value := Ex.v5 |});
                (1%nat, {| tp_timestamp := Ex.d3; tp_value := Ex.v6 |})]
               [] []), s').
Proof.
  split; [|split].
  - split; [reflexivity|]. eexists _, _. split; [reflexivity|].
    split; reflexivity.
  - split; [reflexivity|]. eexists _, _. split; [reflexivity|].
    split; reflexivity.
  - eexists. vm_compute. reflexivity.
Qed.

(** ** The LRU order *)

Module LRUFacts.
Import LRU.

Lemma find_Some_elem_of key l (c : t) : find key c = Some l → (key, l) ∈ c.
Proof.
  induction c as [|[k' l'] c IH]; simpl; [done|].
  destruct (String.eqb_spec k' key) as [->|Hne].
  - intros [= ->]. left.
  - intros H. right. by apply IH.
Qed.

Lemma find_None_not_elem_of key l (c : t) : find key c = None → (key, l) ∉ c.
Proof.
  induction c as [|[k' l'] c IH]; simpl; [intros _; apply not_elem_of_nil|].
  destruct (String.eqb_spec k' key) as [->|Hne]; [done|].
  intros H. apply not_elem_of_cons. split; [congruence|by apply IH].
Qed.

Lemma remove_subseteq key (c : t) x : x ∈ remove key c → x ∈ c.
Proof.
  induction c as [|[k' l'] c IH]; simpl; [done|].
  destruct (String.eqb k' key); [by right|].
  intros [->|H]%elem_of_cons; [left|right; by apply IH].
Qed.

Lemma length_remove key l (c : t) :
  find key c = Some l → S (length (remove key c)) = length c.
Proof.
  induction c as [|[k' l'] c IH]; simpl; [done|].
  destruct (String.eqb k' key); [done|].
  intros H. simpl. by rewrite IH.
Qed.

Lemma removelast_subseteq (c : t) x : x ∈ removelast c → x ∈ c.
Proof.
  induction c as [|y c IH]; simpl; [done|].
  destruct c as [|z c]; [by intros ?%elem_of_nil|].
  intros [->|H]%elem_of_cons; [left|right; by apply IH].
Qed.

Lemma length_removelast (c : t) : length (removelast c) = pred (length c).
Proof.
  induction c as [|y c IH]; simpl; [done|].
  destruct c as [|z c]; [done|]. simpl in *. by rewrite IH.
Qed.

Lemma length_touch key l (c : t) :
  find key c = Some l → length (touch key l c) = length c.
Proof. intros H. unfold touch. simpl. by apply (length_remove key l). Qed.

Lemma touch_subseteq key l (c : t) x :
  find key c = Some l → x ∈ touch key l c → x ∈ c.
Proof.
  intros Hf [->|H]%elem_of_cons.
  - by apply find_Some_elem_of.
  - by apply remove_subseteq in H.
Qed.



Lemma length_put key l (c : t) :
  (length c ≤ maxsize)%nat → (length (put key l c) ≤ maxsize)%nat.
Proof.
  intros Hc. unfold put. destruct (find key c); [done|].
  case_decide; simpl.
  - rewrite length_removelast. unfold maxsize in *. lia.
  - lia.
Qed.

Lemma put_subseteq key l (c : t) x : x ∈ put key l c → x = (key, l) ∨ x ∈ c.
Proof.
  unfold put. destruct (find key c); [by right|].
  case_decide; intros [->|Hx]%elem_of_cons; auto.
  right. by apply removelast_subseteq.
Qed.


End LRUFacts.

(** ** The cached lookups *)

Module CacheFacts.
Import LRUFacts.

Lemma upd_eq {X : Type} k (v : X) f : upd k v f k = v.
Proof. unfold upd. by rewrite decide_True. Qed.

Lemma upd_ne {X : Type} k k' (v : X) f : k' ≠ k → upd k v f k' = f k'.
Proof. intros H. unfold upd. by rewrite decide_False. Qed.

Lemma reader_shape fs k key v : reader fs k key = Ok v → shape_ok k v.
Proof.
  destruct k; unfold reader;
    match goal with |- context [match ?r with Ok _ => _ | Raise _ => _ end] =>
      destruct r end; by intros [= <-].
Qed.

Ltac unfold_cached :=
  unfold cached, cached_insar, cached_pred, cached_a95, cached_a99,
    lru_cache, fetch_series, fetch_bands, bind, count_read, set_cache, ret,
    raise, new_series, new_bands.

Lemma cached_hit fs k key s l :
  LRU.find key (cache s k) = Some l →
  cached fs k key s = (Ok l, touched s k key l).
Proof. intros H. destruct k; unfold_cached; by rewrite H. Qed.

Lemma cached_miss_raise fs k key s e :
  LRU.find key (cache s k) = None → reader fs k key = Raise e →
  cached fs k key s = (Raise e, failed s k).
Proof.
  intros H Hr. destruct k; unfold_cached; rewrite H; unfold reader in Hr;
    match type of Hr with match ?r with Ok _ => _ | Raise _ => _ end = _ =>
      destruct r end; by inversion Hr.
Qed.

Lemma cached_miss_ok fs k key s v :
  LRU.find key (cache s k) = None → reader fs k key = Ok v →
  cached fs k key s = (Ok (next_loc s), filled s k key v).
Proof.
  intros H Hr. destruct k; unfold_cached; rewrite H; unfold reader in Hr;
    match type of Hr with match ?r with Ok _ => _ | Raise _ => _ end = _ =>
      destruct r end; inversion Hr; subst; reflexivity.
Qed.

(** A lookup is a hit, a miss whose reader raises, or a miss whose reader
    returns. *)
Lemma cached_cases fs k key s :
  (∃ l, LRU.find key (cache s k) = Some l
        ∧ cached fs k key s = (Ok l, touched s k key l))
  ∨ (LRU.find key (cache s k) = None
     ∧ ∃ e, reader fs k key = Raise e
            ∧ cached fs k key s = (Raise e, failed s k))
  ∨ (LRU.find key (cache s k) = None
     ∧ ∃ v, reader fs k key = Ok v
            ∧ cached fs k key s = (Ok (next_loc s), filled s k key v)).
Proof.
  destruct (LRU.find key (cache s k)) as [l|] eqn:Hf.
  - left. exists l. eauto using cached_hit.
  - right. destruct (reader fs k key) as [v|e] eqn:Hr.
    + right. split; [done|]. exists v. eauto using cached_miss_ok.
    + left. split; [done|]. exists e. eauto using cached_miss_raise.
Qed.

(** *** Objects that exist stay as they are *)

Lemma preserved_refl s : preserved s s.
Proof. split; [lia|done]. Qed.

Lemma preserved_trans s1 s2 s3 :
  preserved s1 s2 → preserved s2 s3 → preserved s1 s3.
Proof.
  intros [Hn1 H1] [Hn2 H2]. split; [lia|]. intros l Hl.
  destruct (H1 l Hl) as [<- <-]. apply H2. lia.
Qed.

Lemma preserved_touched s k key l : preserved s (touched s k key l).
Proof. split; [simpl; lia|done]. Qed.

Lemma preserved_failed s k : preserved s (failed s k).
Proof. split; [simpl; lia|done]. Qed.

Lemma preserved_filled s k key v : preserved s (filled s k key v).
Proof.
  split; [simpl; lia|]. intros l Hl. simpl.
  destruct v; split; try done; apply lookup_insert_ne; lia.
Qed.

Lemma preserved_new_series df s : preserved s (new_series df s).2.
Proof.
  split; [simpl; lia|]. intros l Hl. simpl. split; [|done].
  apply lookup_insert_ne. lia.
Qed.

Lemma preserved_aligned_state s pred a : preserved s (aligned_state s pred a).
Proof.
  split; [simpl; lia|]. intros l Hl. simpl. split.
  - apply lookup_insert_ne. lia.
  - rewrite !lookup_insert_ne by lia. done.
Qed.

Lemma preserved_object s s' k l :
  preserved s s' → (l < next_loc s)%nat → object s' k l = object s k l.
Proof.
  intros [_ H] Hl. destruct (H l Hl) as [Hs Hb].
  destruct k; unfold object; by rewrite ?Hs, ?Hb.
Qed.

Lemma entry_ok_preserved fs s s' k key l :
  preserved s s' → entry_ok fs s k key l → entry_ok fs s' k key l.
Proof.
  intros Hp [Hl [v [Ho Hr]]]. split; [destruct Hp; lia|].
  exists v. split; [|done]. by rewrite (preserved_object s s').
Qed.

(** *** Consistency is kept *)

Lemma consistent_init fs : consistent fs init.
Proof.
  intros k. split; [simpl; lia|]. intros key l H. by apply elem_of_nil in H.
Qed.

(** One cache replaced by entries that are old or as computed, the others
    kept. *)
Lemma consistent_update fs s s' k c' :
  consistent fs s → preserved s s' →
  (∀ k', cache s' k' = upd k c' (cache s) k') →
  (length c' ≤ LRU.maxsize)%nat →
  (∀ key l, (key, l) ∈ c' → (key, l) ∈ cache s k ∨ entry_ok fs s' k key l) →
  consistent fs s'.
Proof.
  intros Hc Hp Hcache Hlen Hin k'. rewrite Hcache.
  destruct (decide (k' = k)) as [->|Hne].
  - rewrite upd_eq. split; [done|]. intros key l Hkl.
    destruct (Hin key l Hkl) as [Hold|Hnew]; [|done].
    apply (entry_ok_preserved fs s); [done|]. by apply Hc.
  - rewrite upd_ne by done. destruct (Hc k') as [Hl He]. split; [done|].
    intros key l Hkl. apply (entry_ok_preserved fs s); auto.
Qed.

Lemma consistent_preserved fs s s' :
  consistent fs s → preserved s s' → (∀ k, cache s' k = cache s k) →
  consistent fs s'.
Proof.
  intros Hc Hp Hcache k. rewrite Hcache. destruct (Hc k) as [Hl He].
  split; [done|]. intros key l Hkl. apply (entry_ok_preserved fs s); auto.
Qed.

Lemma object_filled s k key v :
  shape_ok k v → object (filled s k key v) k (next_loc s) = Some v.
Proof.
  destruct k, v; simpl; try done; intros _; unfold object; simpl;
    by rewrite lookup_insert_eq.
Qed.

Lemma consistent_cached fs k key s :
  consistent fs s → consistent fs (cached fs k key s).2.
Proof.
  intros Hc. destruct (Hc k) as [Hlen Hentries].
  destruct (cached_cases fs k key s)
    as [(l & Hf & ->) | [(Hf & e & Hr & ->) | (Hf & v & Hr & ->)]]; simpl.
  - apply (consistent_update fs s _ k (LRU.touch key l (cache s k)));
      auto using preserved_touched.
    + by rewrite length_touch.
    + intros key' l' H. left. by apply (touch_subseteq key l).
  - apply (consistent_preserved fs s); auto using preserved_failed.
  - apply (consistent_update fs s _ k (LRU.put key (next_loc s) (cache s k)));
      auto using preserved_filled, length_put.
    intros key' l' H. apply put_subseteq in H as [[= -> ->]|H]; [|by left].
    right. split; [simpl; lia|]. exists v. split; [|done].
    apply object_filled. by apply (reader_shape fs _ key).
Qed.

Lemma preserved_cached fs k key s : preserved s (cached fs k key s).2.
Proof.
  destruct (cached_cases fs k key s)
    as [(l & Hf & ->) | [(Hf & e & Hr & ->) | (Hf & v & Hr & ->)]]; simpl;
    auto using preserved_touched, preserved_failed, preserved_filled.
Qed.

End CacheFacts.

(** ** The callback *)

Module AppFacts.
Import CacheFacts.

Lemma step_ok_ret fs {A : Type} (a : A) : step_ok fs (ret a).
Proof. intros s Hc. split; [done|apply preserved_refl]. Qed.

Lemma step_ok_bind fs {A B : Type} (m : M A) (f : A → M B) :
  step_ok fs m → (∀ a, step_ok fs (f a)) → step_ok fs (bind m f).
Proof.
  intros Hm Hf s Hc. unfold bind. destruct (Hm s Hc) as [Hc1 Hp1].
  destruct (m s) as [[a|e] s1]; simpl in *; [|done].
  destruct (Hf a s1 Hc1) as [Hc2 Hp2].
  split; [done|]. by apply (preserved_trans s s1).
Qed.

Lemma step_ok_get_series fs l : step_ok fs (get_series l).
Proof. intros s Hc. split; [done|apply preserved_refl]. Qed.

Lemma step_ok_get_bands fs l : step_ok fs (get_bands l).
Proof. intros s Hc. split; [done|apply preserved_refl]. Qed.

Lemma step_ok_new_series fs df : step_ok fs (new_series df).
Proof.
  intros s Hc. split; [|apply preserved_new_series].
  apply (consistent_preserved fs s); auto using preserved_new_series.
Qed.

Lemma step_ok_cached fs k key : step_ok fs (cached fs k key).
Proof.
  intros s Hc. split; [by apply consistent_cached|apply preserved_cached].
Qed.

Lemma step_ok_align fs pred a : step_ok fs (align pred a).
Proof.
  intros s Hc.
  destruct (series s !!! pred) as [|p0 p] eqn:Ep.
  { rewrite AlignFacts.align_skip by auto. split; [done|apply preserved_refl]. }
  destruct (bands s !!! a) as [|b0 b] eqn:Eb.
  { rewrite AlignFacts.align_skip by auto. split; [done|apply preserved_refl]. }
  rewrite AlignFacts.align_run by (by rewrite ?Ep, ?Eb). simpl.
  split; [|apply preserved_aligned_state].
  apply (consistent_preserved fs s); auto using preserved_aligned_state.
Qed.

Lemma step_ok_display_displacement fs clickData :
  step_ok fs (display_displacement fs clickData).
Proof.
  destruct clickData as [hovertext|]; simpl; [|apply step_ok_ret].
  apply step_ok_bind; [apply (step_ok_cached fs KInsar)|intros insar].
  apply step_ok_bind; [apply step_ok_get_series|intros i].
  destruct (DF.empty i); [apply step_ok_ret|].
  apply step_ok_bind; [apply (step_ok_cached fs KPred)|intros pred].
  apply step_ok_bind; [apply (step_ok_cached fs KA95)|intros a95].
  apply step_ok_bind; [apply (step_ok_cached fs KA99)|intros a99].
  apply step_ok_bind; [apply step_ok_get_series|intros p].
  apply step_ok_bind.
  { destruct (negb (DF.empty p)); [apply step_ok_new_series|apply step_ok_ret]. }
  intros pred'.
  apply step_ok_bind; [apply step_ok_align|intros a95'].
  apply step_ok_bind; [apply step_ok_align|intros a99'].
  repeat (apply step_ok_bind;
          [apply step_ok_get_series || apply step_ok_get_bands|intros ?]).
  apply step_ok_ret.
Qed.

(** Every state of the running application is consistent. *)
Lemma reachable_consistent fs s : reachable fs s → consistent fs s.
Proof.
  induction 1 as [|k key s _ IH|cd s _ IH].
  - apply consistent_init.
  - by apply consistent_cached.
  - by apply step_ok_display_displacement.
Qed.

End AppFacts.

Module LookupFacts.
Import LRUFacts CacheFacts AppFacts.



(** A lookup changes the cache and the read counter of its own kind only. *)
Lemma cached_other_kinds fs k key s k' :
  k' ≠ k →
  cache (cached fs k key s).2 k' = cache s k'
  ∧ reads (cached fs k key s).2 k' = reads s k'.
Proof.
  intros Hne.
  destruct (cached_cases fs k key s)
    as [(l' & Hf & ->) | [(Hf & e & Hr & ->) | (Hf & v & Hr & ->)]];
    simpl; by rewrite ?upd_ne.
Qed.

End LookupFacts.



(** C9. In every state of the running application, a click (the lookups,
    the re-sorting of the prediction series, the tail-truncation and the
    timestamp assignment) leaves every object that existed before as it was;
    so does the alignment block on its own, whatever it is run on. Every
    cache entry therefore still refers to an unchanged object, and after the
    click every cached object holds what its reader computes for its id: a
    later lookup observes the values originally computed. *)
Theorem display_displacement_keeps_cached
    (fs : Files) (s : State) (clickData : option string) :
  reachable fs s →
  let s' := (display_displacement fs clickData s).2 in
  (∀ l, (l < next_loc s)%nat →
        series s' !! l = series s !! l ∧ bands s' !! l = bands s !! l)
  ∧ (∀ k key l, (key, l) ∈ cache s k → object s' k l = object s k l)
  ∧ (∀ pred a k key l,
       (key, l) ∈ cache s k → object (align pred a s).2 k l = object s k l)
  ∧ (∀ k key l, LRU.find key (cache s' k) = Some l →
       ∃ v, object s' k l = Some v ∧ reader fs k key = Ok v).
Proof.
  intros Hreach s'.
  assert (Hc := AppFacts.reachable_consistent fs s Hreach).
  destruct (AppFacts.step_ok_display_displacement fs clickData s Hc)
    as [Hc' Hp]. fold s' in Hc', Hp.
  split; [apply Hp|]. split; [|split].
  - intros k key l Hkl. apply CacheFacts.preserved_object; [done|].
    apply (proj2 (Hc k) key l Hkl).
  - intros pred a k key l Hkl.
    apply CacheFacts.preserved_object; [|apply (proj2 (Hc k) key l Hkl)].
    by apply (AppFacts.step_ok_align fs pred a s).
  - intros k key l Hf. apply LRUFacts.find_Some_elem_of in Hf.
    apply (proj2 (Hc' k) key l Hf).
Qed.

(** A second click on E1: the prediction object that the first click
    cached under "E1" is untouched. *)
Lemma display_displacement_keeps_cached_witness :
  object
    (display_displacement Ex.files_full (Some "E1"%string)
       (display_displacement Ex.files_full (Some "E1"%string) init).2).2
    KPred 1%nat
  = object (display_displacement Ex.files_full (Some "E1"%string) init).2
      KPred 1%nat.
Proof.
  refine (proj1 (proj2
            (display_displacement_keeps_cached Ex.files_full
               (display_displacement Ex.files_full (Some "E1"%string) init).2
               (Some "E1"%string)
               (reach_click Ex.files_full (Some "E1"%string) init
                  (reach_init Ex.files_full))))
            KPred "E1"%string 1%nat _).
  vm_compute. left.
Defined.

(** C10. When the displacement lookup returns a series without rows, the
    callback answers with the hidden, empty result in the state that lookup
    left: the prediction cache and the two anomaly caches are not consulted
    (their entries and their files' read counters are as before the click)
    and nothing is aligned, whatever those files hold for the id. *)
Theorem display_displacement_empty_insar
    (fs : Files) (s s1 : State) (hovertext : string) (l : loc) :
  cached_insar fs (PyStr.strip hovertext) s = (Ok l, s1) →
  series s1 !!! l = [] →
  display_displacement fs (Some hovertext) s = (Ok Hidden, s1)
  ∧ ∀ k, k ≠ KInsar → cache s1 k = cache s k ∧ reads s1 k = reads s k.
Proof.
  intros Hrun Hempty. split.
  - unfold display_displacement, bind. rewrite Hrun.
    unfold get_series. cbn beta iota. by rewrite Hempty.
  - intros k Hk.
    destruct (LookupFacts.cached_other_kinds fs KInsar (PyStr.strip hovertext)
                s k Hk) as [Hcache Hreads].
    change (cached fs KInsar) with (cached_insar fs) in *.
    by rewrite Hrun in Hcache, Hreads.
Qed.

(** A click on E1 whose displacement column is all NaN, while prediction
    and anomaly rows for E1 exist. *)
Lemma display_displacement_empty_insar_witness :
  display_displacement Ex.files_gap (Some "E1"%string) init
  = (Ok Hidden, (cached_insar Ex.files_gap "E1" init).2)
  ∧ ∀ k, k ≠ KInsar →
         cache (cached_insar Ex.files_gap "E1" init).2 k = cache init k
         ∧ reads (cached_insar Ex.files_gap "E1" init).2 k = reads init k.
Proof.
  apply (display_displacement_empty_insar Ex.files_gap init
           (cached_insar Ex.files_gap "E1" init).2 "E1"%string 0%nat).
  - vm_compute. reflexivity.
  - vm_compute. reflexivity.
Defined.

(** * Further properties of the code *)

(** ** Trimming and lower-casing, continued *)

Module PyStrMore.
Import PyStr PyStrFacts.

Lemma isspace_lower_char c : isspace (lower_char c) = isspace c.
Proof. by destruct c as [[] [] [] [] [] [] [] []]. Qed.

Lemma lower_char_idemp c : lower_char (lower_char c) = lower_char c.
Proof. by destruct c as [[] [] [] [] [] [] [] []]. Qed.

Lemma lower_idemp s : lower (lower s) = lower s.
Proof.
  induction s as [|c t IH]; simpl; [done|]. by rewrite lower_char_idemp, IH.
Qed.

Lemma lstrip_lower s : lstrip (lower s) = lower (lstrip s).
Proof.
  induction s as [|c t IH]; simpl; [done|].
  rewrite isspace_lower_char. by destruct (isspace c).
Qed.

Lemma rstrip_lower s : rstrip (lower s) = lower (rstrip s).
Proof.
  induction s as [|c t IH]; simpl; [done|].
  rewrite IH, isspace_lower_char.
  destruct (rstrip t); simpl; [by destruct (isspace c)|done].
Qed.

Lemma strip_lower s : strip (lower s) = lower (strip s).
Proof. unfold strip. by rewrite lstrip_lower, rstrip_lower. Qed.

Lemma rstrip_all_space s : all_space s = true → rstrip s = EmptyString.
Proof.
  induction s as [|c t IH]; simpl; [done|].
  intros [Hc Ht]%andb_true_iff. by rewrite IH, Hc.
Qed.

Lemma lstrip_all_space s : all_space s = true → lstrip s = EmptyString.
Proof.
  induction s as [|c t IH]; simpl; [done|].
  intros [Hc Ht]%andb_true_iff. rewrite Hc. by apply IH.
Qed.

Lemma lstrip_padded pre s :
  all_space pre = true → lstrip (pre ++ s) = lstrip s.
Proof.
  induction pre as [|c t IH]; [done|]. simpl.
  intros [Hc Ht]%andb_true_iff.
  change (lstrip (String c (t ++ s)) = lstrip s). simpl.
  rewrite Hc. by apply IH.
Qed.

Lemma rstrip_padded s post :
  all_space post = true → rstrip (s ++ post) = rstrip s.
Proof.
  intros Hp. induction s as [|c t IH].
  - by apply rstrip_all_space.
  - change (rstrip (String c (t ++ post)) = rstrip (String c t)).
    simpl. by rewrite IH.
Qed.

Lemma strip_padded_r s post :
  all_space post = true → strip (s ++ post) = strip s.
Proof.
  intros Hp. unfold strip. induction s as [|c t IH].
  - change (rstrip (lstrip post) = EmptyString).
    by rewrite lstrip_all_space.
  - change (rstrip (lstrip (String c (t ++ post)))
            = rstrip (lstrip (String c t))).
    simpl. destruct (isspace c); [exact IH|].
    by apply (rstrip_padded (String c t)).
Qed.

(** White space around a text does not change what [strip] returns. *)
Lemma strip_padded pre s post :
  all_space pre = true → all_space post = true →
  strip (pre ++ s ++ post) = strip s.
Proof.
  intros Hpre Hpost. unfold strip at 1. rewrite lstrip_padded by done.
  by apply strip_padded_r.
Qed.

End PyStrMore.

(** ** The flag normaliser, continued *)

(** X1. Normalising a column once more changes nothing (the scanner does it
    per chunk and again on the concatenation); the result has one cell per
    input cell and every cell is the integer 0 or 1, whatever the input
    cells were (text, missing, or numbers). *)
Theorem normalize_is_anomaly_idempotent (s : list Cell) :
  _normalize_is_anomaly (_normalize_is_anomaly s) = _normalize_is_anomaly s
  ∧ length (_normalize_is_anomaly s) = length s
  ∧ Forall (fun c => c = Int8 0 ∨ c = Int8 1) (_normalize_is_anomaly s).
Proof.
  split; [apply _normalize_is_anomaly_idemp|].
  unfold _normalize_is_anomaly. split; [apply length_map|].
  apply Forall_forall. intros c [c0 [-> _]]%list_elem_of_fmap.
  destruct (normalize_flag c0); auto.
Qed.

(** X2. The normaliser ignores white space around the text and the case of
    its letters: two texts that agree once lower-cased, one of them padded
    with white space on either side, normalise to the same value. *)
Theorem normalize_is_anomaly_padding_case (s s' pre post : string) :
  PyStr.all_space pre = true → PyStr.all_space post = true →
  PyStr.lower s = PyStr.lower s' →
  _normalize_is_anomaly [Str (pre ++ s ++ post)] = _normalize_is_anomaly [Str s'].
Proof.
  intros Hpre Hpost Hcase. unfold _normalize_is_anomaly, normalize_flag.
  cbn [map astype_str]. rewrite PyStrMore.strip_padded by done.
  by rewrite <- !PyStrMore.strip_lower, Hcase.
Qed.

Lemma normalize_is_anomaly_padding_case_witness :
  _normalize_is_anomaly [Str ("  " ++ "YeS" ++ " ")]
  = _normalize_is_anomaly [Str "yes"].
Proof.
  apply (normalize_is_anomaly_padding_case "YeS" "yes" "  " " ");
    reflexivity.
Defined.

(** ** The wide readers, continued *)

(** X3. Both wide readers ignore white space around the id they are given:
    a padded id reads the same column, or fails the same way, as the bare
    id. *)
Theorem read_pid_ignores_padding (fs : Files) (pid pre post : string) :
  PyStr.all_space pre = true → PyStr.all_space post = true →
  read_insar_pid fs (pre ++ pid ++ post) = read_insar_pid fs pid
  ∧ read_pred_pid fs (pre ++ pid ++ post) = read_pred_pid fs pid.
Proof.
  intros Hpre Hpost. unfold read_insar_pid, read_pred_pid, read_wide_pid.
  by rewrite PyStrMore.strip_padded.
Qed.

Lemma read_pid_ignores_padding_witness :
  read_insar_pid Ex.files_E1 (" " ++ "E1" ++ "  ")
  = read_insar_pid Ex.files_E1 "E1"
  ∧ read_pred_pid Ex.files_E1 (" " ++ "E1" ++ "  ")
    = read_pred_pid Ex.files_E1 "E1".
Proof.
  apply (read_pid_ignores_padding Ex.files_E1 "E1" " " "  "); reflexivity.
Defined.

(** X4. The prediction reader, for a column that exists in the prediction
    file (any name but the reader's own column names [Date] and
    [timestamp]): it returns the rows of that file with a value in the
    column (a permutation of them, none with a missing value), sorted
    ascending by timestamp, under the index 0..n-1; there are never more
    rows than the file has dates. *)
Theorem read_pred_pid_contract (fs : Files) (pid : string) :
  PyStr.strip pid ≠ "Date"%string →
  PyStr.strip pid ≠ "timestamp"%string →
  PyStr.strip pid ∈ entity_columns (WROC_PRED_PATH fs) →
  ∃ i df,
    column_position (PyStr.strip pid) (entity_columns (WROC_PRED_PATH fs))
    = Some i
    ∧ read_pred_pid fs pid = Ok df
    ∧ DF.rows df ≡ₚ valid_rows (WROC_PRED_PATH fs) i
    ∧ Forall (fun r => isna (tp_value r) = false) (DF.rows df)
    ∧ Sorted Z.le (tp_timestamp <$> DF.rows df)
    ∧ DF.index df = seq 0 (length df)
    ∧ (length df ≤ length (wide_rows (WROC_PRED_PATH fs)))%nat.
Proof.
  intros Hdate Hts Hin.
  destruct (WideFacts.column_position_elem_of _ _ Hin) as [i Hi].
  destruct (WideFacts.read_wide_pid_ok _ _ _ Hdate Hts Hi)
    as [df [Hread [Hperm [Hsorted Hindex]]]].
  exists i, df. repeat split; try done.
  - rewrite Hperm. unfold valid_rows. apply Forall_forall.
    intros r Hr. apply list_elem_of_In, List.filter_In in Hr as [_ Hr].
    by apply negb_true_iff in Hr.
  - rewrite <- (DFFacts.length_rows df), Hperm. unfold valid_rows.
    etrans; [apply List.filter_length_le|]. by rewrite length_map.
Qed.

Lemma read_pred_pid_contract_witness :
  ∃ i df,
    column_position (PyStr.strip "E1")
      (entity_columns (WROC_PRED_PATH Ex.files_E1)) = Some i
    ∧ read_pred_pid Ex.files_E1 "E1" = Ok df
    ∧ DF.rows df ≡ₚ valid_rows (WROC_PRED_PATH Ex.files_E1) i
    ∧ Forall (fun r => isna (tp_value r) = false) (DF.rows df)
    ∧ Sorted Z.le (tp_timestamp <$> DF.rows df)
    ∧ DF.index df = seq 0 (length df)
    ∧ (length df ≤ length (wide_rows (WROC_PRED_PATH Ex.files_E1)))%nat.
Proof.
  apply (read_pred_pid_contract Ex.files_E1 "E1").
  - discriminate.
  - discriminate.
  - vm_compute. left.
Defined.

(** ** The chunked scanner, continued *)

Module ScanMore.
Import DF DFFacts Scan ScanFacts.

(** The rows the loop has collected after all chunks. *)
Lemma collected_rows (path : LongFile) (q : string) (k : nat) :
  (1 ≤ k)%nat →
  rows (concat (fold_left (scan_chunk (PyStr.strip q))
                  (chunks k (range_index path)) []))
  = map norm_row (map strip_pid (List.filter (matches_query q) path)).
Proof.
  intros Hk. rewrite scan_loop_concat. simpl.
  rewrite rows_concat_parts, chunks_concat by done.
  rewrite rows_range_index, filter_map_comm. do 2 f_equal.
  apply List.filter_ext. intros r. apply pid_matches_strip_pid.
Qed.

(** The scanner's result in closed form. *)
Lemma scan_result (path : LongFile) (q : string) (chunksize : Z) :
  1 ≤ chunksize →
  read_anom_pid_chunked path q chunksize
  = Ok (range_index (map (scanned_row q) (List.filter (matches_query q) path))).
Proof.
  intros Hk. unfold read_anom_pid_chunked.
  destruct (Z.ltb_spec chunksize 1) as [?|_]; [lia|].
  assert (Hrows := collected_rows path q (Z.to_nat chunksize) ltac:(lia)).
  destruct (fold_left _ _ _) as [|part out'] eqn:Hout.
  - simpl in Hrows. symmetry in Hrows.
    apply map_eq_nil, map_eq_nil in Hrows. by rewrite Hrows.
  - f_equal. rewrite normalize_column_map. unfold concat_ignore_index.
    rewrite assign_fix_pid.
    rewrite (reset_index_as_range _
               (map norm_row (map fix_pid (rows (concat (part :: out')))))).
    2:{ rewrite !rows_map_snd. by rewrite rows_range_index. }
    rewrite map_snd_range_index. f_equal.
    rewrite Hrows, !map_map. apply map_ext_in.
    intros r Hr. apply List.filter_In in Hr as [_ Hr].
    by apply returned_row.
Qed.

Lemma matches_query_strip q r :
  matches_query (PyStr.strip q) r = matches_query q r.
Proof. unfold matches_query. by rewrite PyStrFacts.strip_idemp. Qed.

Lemma scanned_row_strip q r :
  scanned_row (PyStr.strip q) r = scanned_row q r.
Proof. unfold scanned_row. by rewrite PyStrFacts.strip_idemp. Qed.

End ScanMore.

(** X5. The chunk size does not matter: any two chunk sizes of at least 1
    give the same result for the same file and id. A chunk size below 1 is
    refused with a [ValueError], whatever the file holds. *)
Theorem read_anom_pid_chunked_any_chunksize
    (path : LongFile) (q : string) (k1 k2 k0 : Z) :
  1 ≤ k1 → 1 ≤ k2 → k0 < 1 →
  read_anom_pid_chunked path q k1 = read_anom_pid_chunked path q k2
  ∧ read_anom_pid_chunked path q k0 = Raise ValueError.
Proof.
  intros H1 H2 H0. split.
  - by rewrite !ScanMore.scan_result.
  - unfold read_anom_pid_chunked.
    by destruct (Z.ltb_spec k0 1) as [_|?]; [|lia].
Qed.

Lemma read_anom_pid_chunked_any_chunksize_witness :
  read_anom_pid_chunked Ex.long_E1 "E1" 1
  = read_anom_pid_chunked Ex.long_E1 "E1" DEFAULT_CHUNKSIZE
  ∧ read_anom_pid_chunked Ex.long_E1 "E1" 0 = Raise ValueError.
Proof.
  apply (read_anom_pid_chunked_any_chunksize Ex.long_E1 "E1"
           1 DEFAULT_CHUNKSIZE 0); vm_compute; congruence.
Defined.

(** X6. The scanner ignores white space around the id it is given, and what
    it returns is uniform: every row carries the trimmed id, an integer flag
    0 or 1 and no timestamp, and there are no more rows than the file has. *)
Theorem read_anom_pid_chunked_rows
    (path : LongFile) (q pre post : string) (chunksize : Z) :
  1 ≤ chunksize →
  PyStr.all_space pre = true → PyStr.all_space post = true →
  ∃ df,
    read_anom_pid_chunked path q chunksize = Ok df
    ∧ read_anom_pid_chunked path (pre ++ q ++ post) chunksize = Ok df
    ∧ (length df ≤ length path)%nat
    ∧ Forall (fun r =>
                timestamp r = None
                ∧ pid (fields r) = Some (PyStr.strip q)
                ∧ (is_anomaly (fields r) = Int8 0
                   ∨ is_anomaly (fields r) = Int8 1))
             (DF.rows df).
Proof.
  intros Hk Hpre Hpost. eexists. split; [by apply ScanMore.scan_result|].
  split; [|split].
  - rewrite ScanMore.scan_result by done.
    assert (Hs : PyStr.strip (pre ++ q ++ post) = PyStr.strip q)
      by by apply PyStrMore.strip_padded.
    do 2 f_equal.
    rewrite <- (List.filter_ext _ _ (ScanMore.matches_query_strip _)).
    rewrite <- (List.filter_ext _ _ (ScanMore.matches_query_strip q)), Hs.
    apply map_ext. intros r.
    by rewrite <- ScanMore.scanned_row_strip, Hs, ScanMore.scanned_row_strip.
  - rewrite DFFacts.length_range_index, length_map.
    apply List.filter_length_le.
  - rewrite DFFacts.rows_range_index. apply Forall_forall.
    intros r [r0 [-> _]]%list_elem_of_fmap. simpl.
    repeat split. destruct (normalize_flag (is_anomaly r0)); auto.
Qed.

Lemma read_anom_pid_chunked_rows_witness :
  ∃ df,
    read_anom_pid_chunked Ex.long_E1 "E1" 2 = Ok df
    ∧ read_anom_pid_chunked Ex.long_E1 ("  " ++ "E1" ++ " ") 2 = Ok df
    ∧ (length df ≤ length Ex.long_E1)%nat
    ∧ Forall (fun r =>
                timestamp r = None
                ∧ pid (fields r) = Some (PyStr.strip "E1")
                ∧ (is_anomaly (fields r) = Int8 0
                   ∨ is_anomaly (fields r) = Int8 1))
             (DF.rows df).
Proof.
  apply (read_anom_pid_chunked_rows Ex.long_E1 "E1" "  " " " 2);
    [lia|reflexivity|reflexivity].
Defined.

(** ** The caches, continued *)

Module CacheMore.
Import LRU LRUFacts CacheFacts.

Lemma find_None_keys key (c : t) : find key c = None → key ∉ c.*1.
Proof.
  induction c as [|[k' l'] c IH]; simpl; [intros _; apply not_elem_of_nil|].
  destruct (String.eqb_spec k' key) as [->|Hne]; [done|].
  intros H. apply not_elem_of_cons. split; [congruence|by apply IH].
Qed.

Lemma remove_keys_subseteq key (c : t) x : x ∈ (remove key c).*1 → x ∈ c.*1.
Proof.
  intros [[k' l'] [-> H]]%list_elem_of_fmap.
  apply list_elem_of_fmap. exists (k', l'). split; [done|].
  by apply (remove_subseteq key).
Qed.

Lemma NoDup_remove key (c : t) :
  NoDup c.*1 → NoDup (remove key c).*1 ∧ key ∉ (remove key c).*1.
Proof.
  induction c as [|[k' l'] c IH]; simpl.
  - intros _. split; [constructor|apply not_elem_of_nil].
  - intros [Hk Hc]%NoDup_cons.
    destruct (String.eqb_spec k' key) as [->|Hne]; [done|].
    destruct (IH Hc) as [Hnd Hkey]. simpl. split.
    + apply NoDup_cons. split; [|done].
      intros H. apply Hk. by apply (remove_keys_subseteq key).
    + apply not_elem_of_cons. split; [congruence|done].
Qed.

Lemma NoDup_touch key l (c : t) : NoDup c.*1 → NoDup (touch key l c).*1.
Proof.
  intros Hc. destruct (NoDup_remove key c Hc) as [Hnd Hkey].
  unfold touch. simpl. by apply NoDup_cons.
Qed.

Lemma removelast_keys_subseteq (c : t) x : x ∈ (removelast c).*1 → x ∈ c.*1.
Proof.
  intros [[k' l'] [-> H]]%list_elem_of_fmap.
  apply list_elem_of_fmap. exists (k', l'). split; [done|].
  by apply removelast_subseteq.
Qed.

Lemma NoDup_removelast (c : t) : NoDup c.*1 → NoDup (removelast c).*1.
Proof.
  induction c as [|[k' l'] c IH]; simpl; [done|].
  intros [Hk Hc]%NoDup_cons. destruct c as [|y c]; [constructor|].
  change (NoDup (k' :: (removelast (y :: c)).*1)).
  apply NoDup_cons. split; [|by apply IH].
  intros H. apply Hk. by apply removelast_keys_subseteq.
Qed.

Lemma NoDup_put key l (c : t) : NoDup c.*1 → NoDup (put key l c).*1.
Proof.
  intros Hc. unfold put. destruct (find key c) eqn:Hf; [done|].
  apply find_None_keys in Hf. case_decide; simpl; apply NoDup_cons.
  - split; [|by apply NoDup_removelast].
    intros Hin. apply Hf. by apply removelast_keys_subseteq.
  - done.
Qed.

Lemma keys_unique_init : keys_unique init.
Proof. intros k. constructor. Qed.

Lemma keeps_ret (I : State → Prop) {A : Type} (a : A) : keeps I (ret a).
Proof. by intros s Hs. Qed.

Lemma keeps_bind (I : State → Prop) {A B : Type} (m : M A) (f : A → M B) :
  keeps I m → (∀ a, keeps I (f a)) → keeps I (bind m f).
Proof.
  intros Hm Hf s Hs. unfold bind. specialize (Hm s Hs).
  destruct (m s) as [[a|e] s1]; simpl in *; [|done]. by apply Hf.
Qed.

Lemma keys_unique_cached fs k key : keeps keys_unique (cached fs k key).
Proof.
  intros s Hs.
  destruct (cached_cases fs k key s)
    as [(l & Hf & ->) | [(Hf & e & Hr & ->) | (Hf & v & Hr & ->)]]; simpl;
    [|done|]; intros k'; simpl; unfold upd; case_decide; subst;
    auto using NoDup_touch, NoDup_put.
Qed.

Lemma align_cache pred a s k : cache (align pred a s).2 k = cache s k.
Proof.
  destruct (series s !!! pred) as [|p0 p] eqn:Ep.
  { by rewrite AlignFacts.align_skip by auto. }
  destruct (bands s !!! a) as [|b0 b] eqn:Eb.
  { by rewrite AlignFacts.align_skip by auto. }
  by rewrite AlignFacts.align_run by (by rewrite ?Ep, ?Eb).
Qed.

Lemma keys_unique_align pred a : keeps keys_unique (align pred a).
Proof. intros s Hs k. rewrite align_cache. apply Hs. Qed.

Lemma keys_unique_display fs clickData :
  keeps keys_unique (display_displacement fs clickData).
Proof.
  destruct clickData as [hovertext|]; simpl; [|apply keeps_ret].
  apply keeps_bind; [apply (keys_unique_cached fs KInsar)|intros insar].
  apply keeps_bind; [by intros s Hs|intros i].
  destruct (DF.empty i); [apply keeps_ret|].
  apply keeps_bind; [apply (keys_unique_cached fs KPred)|intros pred].
  apply keeps_bind; [apply (keys_unique_cached fs KA95)|intros a95].
  apply keeps_bind; [apply (keys_unique_cached fs KA99)|intros a99].
  apply keeps_bind; [by intros s Hs|intros p].
  apply keeps_bind.
  { destruct (negb (DF.empty p)); by intros s Hs. }
  intros pred'.
  apply keeps_bind; [apply keys_unique_align|intros a95'].
  apply keeps_bind; [apply keys_unique_align|intros a99'].
  repeat (apply keeps_bind; [by intros s Hs|intros ?]).
  apply keeps_ret.
Qed.

End CacheMore.

(** X7. In every state of the running application no id occurs twice in a
    cache, so the entry a lookup finds is the only entry of its id. *)
Theorem cache_keys_unique (fs : Files) (s : State) (k : Kind) :
  reachable fs s → NoDup (cache s k).*1.
Proof.
  intros Hreach. revert k. change (keys_unique s).
  induction Hreach as [|k' key s _ IH|cd s _ IH].
  - apply CacheMore.keys_unique_init.
  - by apply CacheMore.keys_unique_cached.
  - by apply CacheMore.keys_unique_display.
Qed.

Lemma cache_keys_unique_witness :
  NoDup
    (cache
       (display_displacement Ex.files_full (Some "E1"%string)
          (display_displacement Ex.files_full (Some "E1"%string) init).2).2
       KA95).*1.
Proof.
  apply (cache_keys_unique Ex.files_full).
  apply reach_click, reach_click, reach_init.
Defined.

(** X8. A lookup whose reader raises is never answered from the cache: in
    every state of the running application it raises the reader's exception,
    has read the file once more, and leaves every cache and every object as
    they were; the id is still not cached, so a repetition reads the file
    again. *)
Theorem cached_failure_not_cached
    (fs : Files) (s : State) (k : Kind) (key : string) (e : exn) :
  reachable fs s → reader fs k key = Raise e →
  cached fs k key s = (Raise e, failed s k)
  ∧ LRU.find key (cache (failed s k) k) = None
  ∧ cached fs k key (failed s k) = (Raise e, failed (failed s k) k)
  ∧ reads (failed (failed s k) k) k = S (S (reads s k)).
Proof.
  intros Hreach Hr.
  assert (Hc := AppFacts.reachable_consistent fs s Hreach).
  assert (Hf : LRU.find key (cache s k) = None).
  { destruct (LRU.find key (cache s k)) as [l|] eqn:Hf; [|done].
    apply LRUFacts.find_Some_elem_of in Hf.
    destruct (proj2 (Hc k) key l Hf) as [_ [v [_ Hv]]]. congruence. }
  split; [by apply CacheFacts.cached_miss_raise|].
  split; [exact Hf|]. split; [by apply CacheFacts.cached_miss_raise|].
  simpl. by rewrite !CacheFacts.upd_eq.
Qed.

Lemma cached_failure_not_cached_witness :
  cached Ex.files_E1 KInsar "E2" init = (Raise ValueError, failed init KInsar)
  ∧ LRU.find "E2" (cache (failed init KInsar) KInsar) = None
  ∧ cached Ex.files_E1 KInsar "E2" (failed init KInsar)
    = (Raise ValueError, failed (failed init KInsar) KInsar)
  ∧ reads (failed (failed init KInsar) KInsar) KInsar = S (S (reads init KInsar)).
Proof.
  apply (cached_failure_not_cached Ex.files_E1 init KInsar "E2" ValueError).
  - apply reach_init.
  - reflexivity.
Defined.

(** ** The callback against its cache-free reading *)

Module PureFacts.
Import CacheFacts AppFacts.

Lemma series_at_preserved s s' l df :
  preserved s s' → series_at s l df → series_at s' l df.
Proof.
  intros [Hn Hp] [Hl Hs]. split; [lia|]. by rewrite (proj1 (Hp l Hl)).
Qed.

Lemma bands_at_preserved s s' l df :
  preserved s s' → bands_at s l df → bands_at s' l df.
Proof.
  intros [Hn Hp] [Hl Hs]. split; [lia|]. by rewrite (proj2 (Hp l Hl)).
Qed.

Lemma series_at_total s l df : series_at s l df → series s !!! l = df.
Proof. intros [_ H]. by apply lookup_total_correct. Qed.

Lemma bands_at_total s l df : bands_at s l df → bands s !!! l = df.
Proof. intros [_ H]. by apply lookup_total_correct. Qed.

(** What a lookup returns, in a consistent state. *)
Lemma cached_value fs k key s r s' :
  consistent fs s → cached fs k key s = (r, s') →
  consistent fs s' ∧ preserved s s'
  ∧ match r with
    | Ok l => (l < next_loc s')%nat
              ∧ ∃ v, object s' k l = Some v ∧ reader fs k key = Ok v
    | Raise e => reader fs k key = Raise e
    end.
Proof.
  intros Hc Hrun.
  assert (Hc' := consistent_cached fs k key s Hc).
  assert (Hp := preserved_cached fs k key s).
  rewrite Hrun in Hc', Hp. simpl in Hc', Hp. split; [done|]. split; [done|].
  destruct (cached_cases fs k key s)
    as [(l & Hf & Hr) | [(Hf & e & He & Hr) | (Hf & v & Hv & Hr)]];
    rewrite Hrun in Hr; injection Hr as -> ->.
  - apply LRUFacts.find_Some_elem_of in Hf.
    destruct (proj2 (Hc k) key l Hf) as [Hl [v [Ho Hv]]].
    split; [done|]. by exists v.
  - done.
  - split; [simpl; lia|]. exists v. split; [|done].
    apply object_filled. by apply (reader_shape fs _ key).
Qed.

Lemma cached_insar_value fs key s r s' :
  consistent fs s → cached_insar fs key s = (r, s') →
  consistent fs s' ∧ preserved s s'
  ∧ match r with
    | Ok l => ∃ df, read_insar_pid fs key = Ok df ∧ series_at s' l df
    | Raise e => read_insar_pid fs key = Raise e
    end.
Proof.
  intros Hc Hrun.
  destruct (cached_value fs KInsar key s r s' Hc Hrun) as (Hc' & Hp & Hv).
  split; [done|]. split; [done|]. unfold reader, object in Hv.
  destruct r as [l|e], (read_insar_pid fs key) as [df|e'];
    try (destruct Hv as (Hl & v & Ho & [= <-])); try done.
  - exists df. split; [done|]. split; [done|].
    destruct (series s' !! l); by inversion Ho.
  - by inversion Hv.
Qed.

Lemma cached_pred_value fs key s r s' :
  consistent fs s → cached_pred fs key s = (r, s') →
  consistent fs s' ∧ preserved s s'
  ∧ match r with
    | Ok l => ∃ df, read_pred_pid fs key = Ok df ∧ series_at s' l df
    | Raise e => read_pred_pid fs key = Raise e
    end.
Proof.
  intros Hc Hrun.
  destruct (cached_value fs KPred key s r s' Hc Hrun) as (Hc' & Hp & Hv).
  split; [done|]. split; [done|]. unfold reader, object in Hv.
  destruct r as [l|e], (read_pred_pid fs key) as [df|e'];
    try (destruct Hv as (Hl & v & Ho & [= <-])); try done.
  - exists df. split; [done|]. split; [done|].
    destruct (series s' !! l); by inversion Ho.
  - by inversion Hv.
Qed.

Lemma cached_a95_value fs key s r s' :
  consistent fs s → cached_a95 fs key s = (r, s') →
  consistent fs s' ∧ preserved s s'
  ∧ match r with
    | Ok l =>
        ∃ df, read_anom_pid_chunked (WROC_A95_PATH fs) key DEFAULT_CHUNKSIZE
              = Ok df ∧ bands_at s' l df
    | Raise e =>
        read_anom_pid_chunked (WROC_A95_PATH fs) key DEFAULT_CHUNKSIZE
        = Raise e
    end.
Proof.
  intros Hc Hrun.
  destruct (cached_value fs KA95 key s r s' Hc Hrun) as (Hc' & Hp & Hv).
  split; [done|]. split; [done|]. unfold reader, object in Hv.
  destruct r as [l|e],
    (read_anom_pid_chunked (WROC_A95_PATH fs) key DEFAULT_CHUNKSIZE)
      as [df|e'];
    try (destruct Hv as (Hl & v & Ho & [= <-])); try done.
  - exists df. split; [done|]. split; [done|].
    destruct (bands s' !! l); by inversion Ho.
  - by inversion Hv.
Qed.

Lemma cached_a99_value fs key s r s' :
  consistent fs s → cached_a99 fs key s = (r, s') →
  consistent fs s' ∧ preserved s s'
  ∧ match r with
    | Ok l =>
        ∃ df, read_anom_pid_chunked (WROC_A99_PATH fs) key DEFAULT_CHUNKSIZE
              = Ok df ∧ bands_at s' l df
    | Raise e =>
        read_anom_pid_chunked (WROC_A99_PATH fs) key DEFAULT_CHUNKSIZE
        = Raise e
    end.
Proof.
  intros Hc Hrun.
  destruct (cached_value fs KA99 key s r s' Hc Hrun) as (Hc' & Hp & Hv).
  split; [done|]. split; [done|]. unfold reader, object in Hv.
  destruct r as [l|e],
    (read_anom_pid_chunked (WROC_A99_PATH fs) key DEFAULT_CHUNKSIZE)
      as [df|e'];
    try (destruct Hv as (Hl & v & Ho & [= <-])); try done.
  - exists df. split; [done|]. split; [done|].
    destruct (bands s' !! l); by inversion Ho.
  - by inversion Hv.
Qed.

Lemma new_series_value df s :
  preserved s (new_series df s).2
  ∧ series_at (new_series df s).2 (next_loc s) df.
Proof.
  split; [apply preserved_new_series|]. split; [simpl; lia|].
  simpl. apply lookup_insert_eq.
Qed.

(** The alignment block on references does what [align_frames] does on
    values. *)
Lemma align_value s pred a p b :
  series_at s pred p → bands_at s a b →
  ∃ a' s', align pred a s = (Ok a', s')
           ∧ preserved s s' ∧ bands_at s' a' (align_frames p b).
Proof.
  intros Hp Hb.
  assert (Ep := series_at_total _ _ _ Hp).
  assert (Eb := bands_at_total _ _ _ Hb).
  unfold align_frames.
  destruct p as [|p0 p].
  { exists a, s. rewrite AlignFacts.align_skip by auto.
    auto using preserved_refl. }
  destruct b as [|b0 b].
  { exists a, s. rewrite AlignFacts.align_skip by auto.
    auto using preserved_refl. }
  exists (S (next_loc s)), (aligned_state s pred a).
  rewrite AlignFacts.align_run by (by rewrite ?Ep, ?Eb).
  split; [done|]. split; [apply preserved_aligned_state|].
  split; [simpl; lia|]. unfold aligned_state. cbn [bands].
  rewrite lookup_insert_eq, Ep, Eb. done.
Qed.

End PureFacts.

Module PureRun.
Import CacheFacts AppFacts PureFacts.

(** In a consistent state the callback returns what its cache-free reading
    returns. *)
Lemma display_value (fs : Files) (s : State) (clickData : option string) :
  consistent fs s →
  (display_displacement fs clickData s).1 = display_uncached fs clickData.
Proof.
  intros Hc.
  destruct clickData as [hovertext|]; [|done].
  unfold display_displacement, display_uncached.
  set (id := PyStr.strip hovertext).
  (* insar = cached_insar(point_id) *)
  unfold bind at 1.
  destruct (cached_insar fs id s) as [r1 s1] eqn:E1.
  destruct (cached_insar_value fs id s r1 s1 Hc E1)
    as (Hc1 & Hp1 & Hv1).
  destruct r1 as [li|e]; [destruct Hv1 as (i & Hri & Hi)|by rewrite Hv1].
  rewrite Hri. unfold bind at 1, get_series at 1.
  rewrite (series_at_total _ _ _ Hi).
  destruct (DF.empty i) eqn:Ei; [done|].
  (* pred = cached_pred(point_id) *)
  unfold bind at 1.
  destruct (cached_pred fs id s1) as [r2 s2] eqn:E2.
  destruct (cached_pred_value fs id s1 r2 s2 Hc1 E2)
    as (Hc2 & Hp2 & Hv2).
  destruct r2 as [lp|e]; [destruct Hv2 as (p0 & Hrp & Hp0)|by rewrite Hv2].
  rewrite Hrp.
  (* a95 = cached_a95(point_id) *)
  unfold bind at 1.
  destruct (cached_a95 fs id s2) as [r3 s3] eqn:E3.
  destruct (cached_a95_value fs id s2 r3 s3 Hc2 E3)
    as (Hc3 & Hp3 & Hv3).
  destruct r3 as [l95|e]; [destruct Hv3 as (a95 & Hr95 & H95)|by rewrite Hv3].
  rewrite Hr95.
  (* a99 = cached_a99(point_id) *)
  unfold bind at 1.
  destruct (cached_a99 fs id s3) as [r4 s4] eqn:E4.
  destruct (cached_a99_value fs id s3 r4 s4 Hc3 E4)
    as (Hc4 & Hp4 & Hv4).
  destruct r4 as [l99|e]; [destruct Hv4 as (a99 & Hr99 & H99)|by rewrite Hv4].
  rewrite Hr99.
  (* the objects looked up so far are still there *)
  assert (Hi4 : series_at s4 li i)
    by eauto using series_at_preserved.
  assert (Hp4' : series_at s4 lp p0)
    by eauto using series_at_preserved.
  assert (H954 : bands_at s4 l95 a95)
    by eauto using bands_at_preserved.
  (* pred = pred.sort_values("timestamp").reset_index(drop=True) *)
  unfold bind at 1, get_series at 1.
  rewrite (series_at_total _ _ _ Hp4').
  set (p := if negb (DF.empty p0)
            then DF.reset_index (DF.sort_values tp_timestamp p0) else p0).
  assert (Hsort : ∃ lp' s5,
             (if negb (DF.empty p0)
              then new_series (DF.reset_index (DF.sort_values tp_timestamp p0))
              else ret lp) s4 = (Ok lp', s5)
             ∧ preserved s4 s5 ∧ series_at s5 lp' p).
  { unfold p. destruct (negb (DF.empty p0)).
    - eexists _, _. split; [reflexivity|].
      apply new_series_value.
    - exists lp, s4. auto using CacheFacts.preserved_refl. }
  destruct Hsort as (lp' & s5 & E5 & Hp5 & Hlp').
  unfold bind at 1. rewrite E5.
  (* the two alignments *)
  destruct (align_value s5 lp' l95 p a95)
    as (l95' & s6 & E6 & Hp6 & H956);
    [done|by eauto using bands_at_preserved|].
  unfold bind at 1. rewrite E6.
  destruct (align_value s6 lp' l99 p a99)
    as (l99' & s7 & E7 & Hp7 & H997);
    [by eauto using series_at_preserved
    |by eauto using bands_at_preserved|].
  unfold bind at 1. rewrite E7.
  (* what the figure is drawn from *)
  unfold bind, get_series, get_bands, ret. cbn [fst].
  rewrite (series_at_total s7 li i)
    by eauto using series_at_preserved.
  rewrite (series_at_total s7 lp' p)
    by eauto using series_at_preserved.
  rewrite (bands_at_total s7 l95' (align_frames p a95))
    by eauto using bands_at_preserved.
  by rewrite (bands_at_total s7 l99' (align_frames p a99)).
Qed.

End PureRun.

(** X9. The caches are transparent: in every state of the running
    application a click returns exactly what the callback would compute by
    calling the four readers directly, be it the hidden result, the four
    frames of the figure (displacement, re-sorted prediction, and the two
    aligned anomaly bands), or the exception of the first reader that
    fails. What was looked up before changes nothing in the answer. *)
Theorem display_displacement_uncached
    (fs : Files) (s : State) (clickData : option string) :
  reachable fs s →
  (display_displacement fs clickData s).1 = display_uncached fs clickData.
Proof.
  intros Hreach. apply PureRun.display_value.
  by apply AppFacts.reachable_consistent.
Qed.

Lemma display_displacement_uncached_witness :
  (display_displacement Ex.files_full (Some "E1"%string)
     (display_displacement Ex.files_full (Some "E1"%string) init).2).1
  = display_uncached Ex.files_full (Some "E1"%string).
Proof.
  exact (display_displacement_uncached Ex.files_full
           (display_displacement Ex.files_full (Some "E1"%string) init).2
           (Some "E1"%string)
           (reach_click Ex.files_full (Some "E1"%string) init
              (reach_init Ex.files_full))).
Defined.

(** ** The aligner on values *)

Module AlignMore.
Import DF DFFacts.

Lemma align_frames_skip (p : SeriesFrame) (b : BandFrame) :
  p = [] ∨ b = [] → align_frames p b = b.
Proof.
  intros [-> | ->]; unfold align_frames; [done|]. by destruct p.
Qed.

Lemma length_last_n {A : Type} (n : nat) (l : list A) :
  (n ≤ length l)%nat → length (last_n n l) = n.
Proof. intros H. unfold last_n. rewrite length_drop. lia. Qed.

(** What both sides non-empty give: the last [n] anomaly records under the
    last [n] prediction timestamps. *)
Lemma align_frames_run (p : SeriesFrame) (b : BandFrame) :
  p ≠ [] → b ≠ [] →
  let n := Nat.min (length p) (length b) in
  (1 ≤ n)%nat
  ∧ length (align_frames p b) = n
  ∧ index (align_frames p b) = seq 0 n
  ∧ timestamp <$> rows (align_frames p b)
    = Some <$> (tp_timestamp <$> last_n n (rows p))
  ∧ fields <$> rows (align_frames p b) = fields <$> last_n n (rows b).
Proof.
  intros Hp Hb n. unfold align_frames.
  rewrite (proj2 (empty_false p) Hp), (proj2 (empty_false b) Hb).
  cbn [negb andb]. change (Nat.min (len p) (len b)) with n.
  assert (Hn1 : (1 ≤ n)%nat)
    by (unfold n; destruct p, b; simpl in *; try done; lia).
  assert (Hpt : rows (reset_index (tail n p)) = last_n n (rows p)).
  { rewrite rows_reset_index, rows_tail. unfold last_n.
    by rewrite length_rows. }
  assert (Hbt : rows (reset_index (tail n b)) = last_n n (rows b)).
  { rewrite rows_reset_index, rows_tail. unfold last_n.
    by rewrite length_rows. }
  assert (HlP : length (last_n n (rows p)) = n)
    by (apply length_last_n; rewrite length_rows; lia).
  assert (HlB : length (last_n n (rows b)) = n)
    by (apply length_last_n; rewrite length_rows; lia).
  assert (Hlb : length (reset_index (tail n b)) = n)
    by by rewrite <- length_rows, Hbt.
  assert (Hlen : length (map tp_timestamp (rows (reset_index (tail n p))))
                 = length (reset_index (tail n b)))
    by by rewrite length_map, Hpt, HlP, Hlb.
  split; [done|]. split; [by rewrite length_assign|].
  split.
  { rewrite index_assign by done. rewrite index_reset_index. f_equal.
    by rewrite <- length_reset_index. }
  split.
  - rewrite rows_assign, AlignFacts.timestamps_assigned.
    + by rewrite Hpt.
    + by rewrite length_rows.
  - rewrite rows_assign, AlignFacts.fields_kept.
    + by rewrite Hbt.
    + by rewrite length_rows.
Qed.

Lemma has_timestamp_column_Some (b : BandFrame) ts :
  timestamp <$> rows b = Some <$> ts → has_timestamp_column b = true.
Proof.
  unfold rows, has_timestamp_column. revert ts.
  induction b as [|[i r] b IH]; intros [|t ts]; simpl; try done.
  intros [= Hr Hb]. rewrite Hr. simpl. by apply (IH ts).
Qed.

Lemma has_timestamp_column_None (b : BandFrame) :
  b ≠ [] → Forall (fun r => timestamp r = None) (rows b) →
  has_timestamp_column b = false.
Proof.
  destruct b as [|[i r] b]; [done|]. intros _ [Hr _]%Forall_cons.
  simpl in *. rewrite Hr. done.
Qed.

(** The frames of the scanner carry no timestamp. *)
Lemma scanned_no_timestamp path q b :
  read_anom_pid_chunked path q DEFAULT_CHUNKSIZE = Ok b →
  Forall (fun r => timestamp r = None) (rows b).
Proof.
  rewrite ScanMore.scan_result by done. intros [= <-].
  rewrite rows_range_index. apply Forall_forall.
  by intros r [r0 [-> _]]%list_elem_of_fmap.
Qed.

Lemma Sorted_drop (l : list Z) n : Sorted Z.le l → Sorted Z.le (drop n l).
Proof.
  revert l. induction n as [|n IH]; intros l Hl; [done|].
  destruct l as [|x l]; [done|]. simpl. apply IH. by inversion Hl.
Qed.

Lemma key_le_Sorted {R : Type} (key : R → Z) (df : DataFrame R) :
  Sorted Z.le (key <$> rows df) → Sorted (key_le key) df.
Proof.
  unfold rows. induction df as [|x df IH]; simpl; [constructor|].
  intros [Hs Hhd]%Sorted_inv. constructor; [by apply IH|].
  destruct df as [|y df]; constructor. by apply HdRel_inv in Hhd.
Qed.

#[global] Instance key_le_trans {R : Type} (key : R → Z) :
  Transitive (key_le key).
Proof. intros x y z. unfold key_le. lia. Qed.

Lemma NoDup_fmap_eq {A B : Type} (f : A → B) (l : list A) x y :
  NoDup (f <$> l) → x ∈ l → y ∈ l → f x = f y → x = y.
Proof.
  induction l as [|a l IH]; simpl; [by intros _ ?%elem_of_nil|].
  intros [Ha Hl]%NoDup_cons [->|Hx]%elem_of_cons [->|Hy]%elem_of_cons Hf;
    try done.
  - exfalso. apply Ha. rewrite Hf. by apply list_elem_of_fmap_2.
  - exfalso. apply Ha. rewrite <- Hf. by apply list_elem_of_fmap_2.
  - by apply IH.
Qed.

(** Sorting again a frame that is sorted on pairwise distinct keys, and
    re-indexing a frame that is indexed 0..n-1, change nothing. *)
Lemma resort_noop {R : Type} (key : R → Z) (df : DataFrame R) :
  index df = seq 0 (length df) →
  Sorted Z.le (key <$> rows df) → NoDup (key <$> rows df) →
  reset_index (sort_values key df) = df.
Proof.
  intros Hidx Hs Hnd.
  assert (Hsort : sort_values key df = df).
  { unfold sort_values. apply (Sorted_unique_strong (key_le key)).
    - intros x1 x2 H1 H2 H12 H21.
      rewrite merge_sort_Permutation in H1.
      apply (NoDup_fmap_eq (fun x : nat * R => key x.2) df); try done.
      + unfold rows in Hnd. by rewrite <- list_fmap_compose in Hnd.
      + unfold key_le in *. lia.
    - apply Sorted_merge_sort, _.
    - by apply key_le_Sorted.
    - apply merge_sort_Permutation. }
  rewrite Hsort. apply frame_eq.
  - by rewrite index_reset_index.
  - apply rows_reset_index.
Qed.

End AlignMore.

(** ** The callback, continued *)

Module ClickFacts.
Import DF DFFacts.

(** The scanner never fails with the default chunk size. *)
Lemma scan_default_ok path q :
  ∃ b, read_anom_pid_chunked path q DEFAULT_CHUNKSIZE = Ok b.
Proof. eexists. by apply ScanMore.scan_result. Qed.

Lemma read_wide_pid_strip f q :
  read_wide_pid f (PyStr.strip q) = read_wide_pid f q.
Proof. unfold read_wide_pid. by rewrite PyStrFacts.strip_idemp. Qed.

(** What a band handed to the figure looks like next to the prediction
    series [p]: untouched by the aligner, or a suffix of [p]'s dates. *)
Lemma align_frames_band (p : SeriesFrame) (a : BandFrame) :
  Forall (fun r => timestamp r = None) (rows a) →
  let b := align_frames p a in
  (b = a ∧ (p = [] ∨ a = []))
  ∨ ((1 ≤ length b ≤ length p)%nat
     ∧ (length b ≤ length a)%nat
     ∧ timestamp <$> rows b
       = Some <$> (tp_timestamp <$> last_n (length b) (rows p))).
Proof.
  intros Hnone b.
  destruct (decide (p = [])) as [->|Hp].
  { left. split; [|by left]. by apply AlignMore.align_frames_skip; left. }
  destruct (decide (a = [])) as [->|Ha].
  { left. split; [|by right]. by apply AlignMore.align_frames_skip; right. }
  right.
  destruct (AlignMore.align_frames_run p a Hp Ha) as (H1 & Hl & _ & Hts & _).
  fold b in Hl, Hts. rewrite Hl. split; [lia|]. split; [lia|]. exact Hts.
Qed.

End ClickFacts.

(** X10. Which clicks fail. In every state of the running application: a
    click on an id that is not a column of the displacement file raises;
    so does a click on an id that has displacement rows but is not a column
    of the prediction file; once both wide readers return, the callback
    returns, whatever the anomaly files hold; and a displacement series
    without rows gives the hidden result. *)
Theorem display_displacement_errors
    (fs : Files) (s : State) (hovertext : string) :
  reachable fs s →
  let id := PyStr.strip hovertext in
  let result := (display_displacement fs (Some hovertext) s).1 in
  (id ∉ entity_columns (WROC_TS_PATH fs) → ∃ e, result = Raise e)
  ∧ (∀ i, read_insar_pid fs id = Ok i → i ≠ [] →
          id ∉ entity_columns (WROC_PRED_PATH fs) → ∃ e, result = Raise e)
  ∧ (∀ i p, read_insar_pid fs id = Ok i → read_pred_pid fs id = Ok p →
            ∃ o, result = Ok o)
  ∧ (∀ i, read_insar_pid fs id = Ok i → i = [] → result = Ok Hidden).
Proof.
  intros Hreach id result. unfold result.
  rewrite PureRun.display_value by by apply AppFacts.reachable_consistent.
  unfold display_uncached. fold id. repeat split.
  - intros Hcol. unfold read_insar_pid.
    destruct (WideFacts.read_wide_pid_absent (WROC_TS_PATH fs) id)
      as [e He]; [by unfold id; rewrite PyStrFacts.strip_idemp|].
    rewrite He. by exists e.
  - intros i Hi Hne Hcol. rewrite Hi.
    rewrite (proj2 (DFFacts.empty_false i) Hne). unfold read_pred_pid.
    destruct (WideFacts.read_wide_pid_absent (WROC_PRED_PATH fs) id)
      as [e He]; [by unfold id; rewrite PyStrFacts.strip_idemp|].
    rewrite He. by exists e.
  - intros i p Hi Hp. rewrite Hi, Hp.
    destruct (DF.empty i); [by eexists|].
    destruct (ClickFacts.scan_default_ok (WROC_A95_PATH fs) id) as [a95 ->].
    destruct (ClickFacts.scan_default_ok (WROC_A99_PATH fs) id) as [a99 ->].
    by eexists.
  - intros i Hi ->. by rewrite Hi.
Qed.

Lemma display_displacement_errors_witness :
  ∃ e, (display_displacement Ex.files_E1 (Some "E2"%string) init).1 = Raise e.
Proof.
  apply (proj1 (display_displacement_errors Ex.files_E1 init "E2"%string
                  (reach_init Ex.files_E1))).
  intros Hin. vm_compute in Hin.
  apply elem_of_cons in Hin as [?|Hin]; [done|by apply elem_of_nil in Hin].
Defined.

(** X11. What a click shows. In every state of the running application,
    when the callback returns the four frames of a figure: the displacement
    frame is the reader's and has rows; the prediction frame is sorted
    ascending by timestamp; and each anomaly band is either the scanner's
    frame as it is (when it or the prediction frame has no rows) or holds
    between 1 and len(prediction) records whose timestamps are the last
    dates of the prediction frame, in order. *)
Theorem display_displacement_shown
    (fs : Files) (s : State) (hovertext : string)
    (i p : SeriesFrame) (b95 b99 : BandFrame) :
  reachable fs s →
  (display_displacement fs (Some hovertext) s).1 = Ok (Shown i p b95 b99) →
  read_insar_pid fs (PyStr.strip hovertext) = Ok i
  ∧ i ≠ []
  ∧ Sorted Z.le (tp_timestamp <$> DF.rows p)
  ∧ Forall
      (fun b =>
         Forall (fun r => timestamp r = None) (DF.rows b)
         ∨ ((1 ≤ length b ≤ length p)%nat
            ∧ timestamp <$> DF.rows b
              = Some <$> (tp_timestamp <$> last_n (length b) (DF.rows p))))
      [b95; b99].
Proof.
  intros Hreach.
  rewrite PureRun.display_value by by apply AppFacts.reachable_consistent.
  unfold display_uncached. set (id := PyStr.strip hovertext).
  destruct (read_insar_pid fs id) as [i0|] eqn:Hi; [|done].
  destruct (DF.empty i0) eqn:Ei; [done|].
  destruct (read_pred_pid fs id) as [p0|]; [|done].
  destruct (read_anom_pid_chunked (WROC_A95_PATH fs) id DEFAULT_CHUNKSIZE)
    as [a95|] eqn:H95; [|done].
  destruct (read_anom_pid_chunked (WROC_A99_PATH fs) id DEFAULT_CHUNKSIZE)
    as [a99|] eqn:H99; [|done].
  intros [= <- <- <- <-]. split; [done|].
  split; [by apply DFFacts.empty_false|]. split.
  - destruct p0 as [|x p0]; [constructor|]. cbn [DF.empty negb].
    rewrite DFFacts.rows_reset_index. apply WideFacts.sort_values_Sorted.
  - constructor; [|constructor; [|constructor]].
    + apply AlignMore.scanned_no_timestamp in H95.
      destruct (ClickFacts.align_frames_band
                  (if negb (DF.empty p0)
                   then DF.reset_index (DF.sort_values tp_timestamp p0)
                   else p0) a95 H95) as [[-> _]|(Hl & _ & Hts)]; auto.
    + apply AlignMore.scanned_no_timestamp in H99.
      destruct (ClickFacts.align_frames_band
                  (if negb (DF.empty p0)
                   then DF.reset_index (DF.sort_values tp_timestamp p0)
                   else p0) a99 H99) as [[-> _]|(Hl & _ & Hts)]; auto.
Qed.

Lemma display_displacement_shown_witness :
  ∃ i p b95 b99,
    (display_displacement Ex.files_full (Some "E1"%string) init).1
    = Ok (Shown i p b95 b99)
    ∧ read_insar_pid Ex.files_full (PyStr.strip "E1") = Ok i
    ∧ i ≠ []
    ∧ Sorted Z.le (tp_timestamp <$> DF.rows p)
    ∧ Forall
        (fun b =>
           Forall (fun r => timestamp r = None) (DF.rows b)
           ∨ ((1 ≤ length b ≤ length p)%nat
              ∧ timestamp <$> DF.rows b
                = Some <$> (tp_timestamp <$> last_n (length b) (DF.rows p))))
        [b95; b99].
Proof.
  eexists _, _, _, _. split; [vm_compute; reflexivity|].
  apply (display_displacement_shown Ex.files_full init "E1"%string).
  - apply reach_init.
  - vm_compute. reflexivity.
Defined.

(** X12. The second sort is redundant on well-formed files. In every state
    of the running application, when the prediction file has no two valid
    rows of the id with the same date, the prediction frame the callback
    shows is the very frame the prediction reader returned: sorting it
    again and re-indexing it changed nothing. *)
Theorem display_displacement_resort_noop
    (fs : Files) (s : State) (hovertext : string)
    (i p : SeriesFrame) (b95 b99 : BandFrame) (col : nat) :
  reachable fs s →
  (display_displacement fs (Some hovertext) s).1 = Ok (Shown i p b95 b99) →
  PyStr.strip hovertext ≠ "Date"%string →
  column_position (PyStr.strip hovertext)
    (entity_columns (WROC_PRED_PATH fs)) = Some col →
  NoDup (tp_timestamp <$> valid_rows (WROC_PRED_PATH fs) col) →
  read_pred_pid fs (PyStr.strip hovertext) = Ok p.
Proof.
  intros Hreach.
  rewrite PureRun.display_value by by apply AppFacts.reachable_consistent.
  unfold display_uncached. set (id := PyStr.strip hovertext).
  destruct (read_insar_pid fs id) as [i0|]; [|done].
  destruct (DF.empty i0); [done|].
  destruct (read_pred_pid fs id) as [p0|] eqn:Hp; [|done].
  destruct (read_anom_pid_chunked (WROC_A95_PATH fs) id DEFAULT_CHUNKSIZE);
    [|done].
  destruct (read_anom_pid_chunked (WROC_A99_PATH fs) id DEFAULT_CHUNKSIZE);
    [|done].
  intros [= _ <- _ _] Hdate Hcol Hnd. f_equal.
  destruct (WideFacts.read_wide_pid_Ok_name _ _ _ Hp) as [_ Hts].
  destruct (WideFacts.read_wide_pid_ok (WROC_PRED_PATH fs) id col)
    as (df & Hread & Hperm & Hsorted & Hindex); [| exact Hts |..].
  { unfold id. by rewrite PyStrFacts.strip_idemp. }
  { unfold id. by rewrite PyStrFacts.strip_idemp. }
  unfold read_pred_pid in Hp. rewrite Hread in Hp. injection Hp as ->.
  destruct p0 as [|x p0]; [done|]. cbn [DF.empty negb]. symmetry.
  apply AlignMore.resort_noop; [done|done|]. by rewrite Hperm.
Qed.

Lemma display_displacement_resort_noop_witness :
  read_pred_pid Ex.files_full (PyStr.strip "E1")
  = Ok [(0%nat, {| tp_timestamp := Ex.d1; tp_value := Ex.v5 |});
        (1%nat, {| tp_timestamp := Ex.d3; tp_value := Ex.v6 |})].
Proof.
  eapply (display_displacement_resort_noop Ex.files_full init "E1"%string
            _ _ _ _ 0%nat).
  - apply reach_init.
  - vm_compute. reflexivity.
  - discriminate.
  - reflexivity.
  - vm_compute. apply NoDup_cons. split; [|apply NoDup_singleton].
    intros Hin. apply elem_of_cons in Hin as [?|Hin]; [done|].
    by apply elem_of_nil in Hin.
Defined.

(** ** The figure *)

Module FigureFacts.
Import DF DFFacts.

(** The four frames of a figure, by where they come from. *)
Lemma shown_inv fs s hovertext i p b95 b99 :
  consistent fs s →
  (display_displacement fs (Some hovertext) s).1 = Ok (Shown i p b95 b99) →
  ∃ p0 a95 a99,
    read_insar_pid fs (PyStr.strip hovertext) = Ok i ∧ i ≠ []
    ∧ read_pred_pid fs (PyStr.strip hovertext) = Ok p0
    ∧ p = (if negb (empty p0)
           then reset_index (sort_values tp_timestamp p0) else p0)
    ∧ read_anom_pid_chunked (WROC_A95_PATH fs) (PyStr.strip hovertext)
        DEFAULT_CHUNKSIZE = Ok a95
    ∧ read_anom_pid_chunked (WROC_A99_PATH fs) (PyStr.strip hovertext)
        DEFAULT_CHUNKSIZE = Ok a99
    ∧ b95 = align_frames p a95 ∧ b99 = align_frames p a99.
Proof.
  intros Hc. rewrite PureRun.display_value by done.
  unfold display_uncached. set (id := PyStr.strip hovertext).
  destruct (read_insar_pid fs id) as [i0|]; [|done].
  destruct (empty i0) eqn:Ei; [done|].
  destruct (read_pred_pid fs id) as [p0|]; [|done].
  destruct (read_anom_pid_chunked (WROC_A95_PATH fs) id DEFAULT_CHUNKSIZE)
    as [a95|]; [|done].
  destruct (read_anom_pid_chunked (WROC_A99_PATH fs) id DEFAULT_CHUNKSIZE)
    as [a99|]; [|done].
  intros [= <- <- <- <-]. exists p0, a95, a99.
  repeat split; try done. by apply empty_false.
Qed.

Lemma band_traces_hidden level (a : BandFrame) :
  a = [] ∨ Forall (fun r => timestamp r = None) (rows a) →
  band_traces level a = [].
Proof.
  intros [-> | Hnone]; [done|]. unfold band_traces.
  destruct (decide (a = [])) as [->|Ha]; [done|].
  rewrite AlignMore.has_timestamp_column_None by done.
  by rewrite andb_false_r.
Qed.

(** The traces of a band whose rows carry timestamps. *)
Lemma band_traces_drawn level (a : BandFrame) ts :
  a ≠ [] → timestamp <$> rows a = Some <$> ts →
  ∃ rest,
    band_traces level a
    = band_trace ("Upper Bound p=" ++ level) "lines" upper_bound a
      :: band_trace ("Lower Bound p=" ++ level) "lines" lower_bound a
      :: rest
    ∧ (rest = []
       ∨ rest = [band_trace ("Anomalies p=" ++ level) "markers" actual_value
                   (select (fun r => is_one (is_anomaly (fields r))) a)]).
Proof.
  intros Ha Hts. unfold band_traces.
  rewrite (proj2 (empty_false a) Ha).
  rewrite (AlignMore.has_timestamp_column_Some a ts Hts). cbn [negb andb app].
  eexists. split; [reflexivity|].
  destruct (empty (select _ a)); auto.
Qed.

Lemma select_timestamps (f : AnomalyBandRecord → bool) (a : BandFrame) :
  timestamp <$> rows (select f a) ⊆ timestamp <$> rows a.
Proof.
  rewrite rows_select. intros x [r [-> Hr]]%list_elem_of_fmap.
  apply list_elem_of_fmap. exists r. split; [done|].
  apply list_elem_of_In. apply list_elem_of_In, List.filter_In in Hr.
  tauto.
Qed.

Lemma last_n_subseteq {A : Type} n (l : list A) : last_n n l ⊆ l.
Proof.
  unfold last_n. intros x Hx. rewrite <- (take_drop (length l - n) l).
  apply elem_of_app. by right.
Qed.

End FigureFacts.

Module FigureMore.
Import DF DFFacts FigureFacts.

Lemma band_trace_ok (p : SeriesFrame) name mode col (a : BandFrame) :
  timestamp <$> rows a ⊆ Some <$> (tp_timestamp <$> rows p) →
  trace_ok p (band_trace name mode col a).
Proof.
  intros Hsub. unfold trace_ok, band_trace. cbn [trace_x trace_y].
  split; [by rewrite !length_map|]. split; [|done].
  apply Forall_forall. intros x Hx. apply Hsub in Hx.
  apply list_elem_of_fmap in Hx as [t [-> _]]. by eexists.
Qed.

(** The traces of a band that went through the alignment block against
    [p]: none, or two or three drawable traces. *)
Lemma band_traces_ok level (p : SeriesFrame) (a : BandFrame) :
  Forall (fun r => timestamp r = None) (rows a) →
  (band_traces level (align_frames p a) = [] ↔ p = [] ∨ a = [])
  ∧ (length (band_traces level (align_frames p a)) ≤ 3)%nat
  ∧ Forall (trace_ok p) (band_traces level (align_frames p a)).
Proof.
  intros Hnone.
  destruct (ClickFacts.align_frames_band p a Hnone)
    as [[Hb Hempty]|(Hlen & _ & Hts)].
  - rewrite Hb. rewrite band_traces_hidden by auto.
    split; [done|]. split; [simpl; lia|constructor].
  - assert (Hne : align_frames p a ≠ [])
      by (intros E; rewrite E in Hlen; simpl in Hlen; lia).
    assert (Hsub : timestamp <$> rows (align_frames p a)
                   ⊆ Some <$> (tp_timestamp <$> rows p)).
    { rewrite Hts. intros x [t [-> Ht]]%list_elem_of_fmap.
      apply list_elem_of_fmap_2.
      apply list_elem_of_fmap in Ht as [r [-> Hr]].
      apply list_elem_of_fmap_2. by eapply last_n_subseteq. }
    destruct (band_traces_drawn level _ _ Hne Hts) as (rest & -> & Hrest).
    split; [|split].
    + split; [done|]. intros [-> | ->].
      * simpl in Hlen. lia.
      * rewrite AlignMore.align_frames_skip in Hne by auto. done.
    + destruct Hrest as [-> | ->]; simpl; lia.
    + repeat (apply Forall_cons; split; [by apply band_trace_ok|]).
      destruct Hrest as [-> | ->]; [constructor|].
      apply Forall_cons. split; [|constructor]. apply band_trace_ok.
      etrans; [apply select_timestamps|done].
Qed.

Lemma series_trace_ok (p : SeriesFrame) name mode :
  trace_ok p (series_trace name mode p).
Proof.
  unfold trace_ok, series_trace. cbn [trace_x trace_y].
  split; [by rewrite !length_map|]. split.
  - apply Forall_forall. intros x [r [-> _]]%list_elem_of_fmap. by eexists.
  - intros x Hx. rewrite <- list_fmap_compose. exact Hx.
Qed.

End FigureMore.

(** X13. When the bands are drawn. In every state of the running
    application, when the callback returns a figure, the traces of an
    anomaly band are present exactly when both the prediction frame and the
    scanner's frame for that band have rows: anomaly rows of an id without
    predictions are read and cached but never drawn. *)
Theorem figure_bands_drawn_iff
    (fs : Files) (s : State) (hovertext : string)
    (i p : SeriesFrame) (b95 b99 : BandFrame) :
  reachable fs s →
  (display_displacement fs (Some hovertext) s).1 = Ok (Shown i p b95 b99) →
  ∃ a95 a99,
    read_anom_pid_chunked (WROC_A95_PATH fs) (PyStr.strip hovertext)
      DEFAULT_CHUNKSIZE = Ok a95
    ∧ read_anom_pid_chunked (WROC_A99_PATH fs) (PyStr.strip hovertext)
        DEFAULT_CHUNKSIZE = Ok a99
    ∧ (band_traces "95" b95 = [] ↔ p = [] ∨ a95 = [])
    ∧ (band_traces "99" b99 = [] ↔ p = [] ∨ a99 = []).
Proof.
  intros Hreach Hrun.
  destruct (FigureFacts.shown_inv fs s hovertext i p b95 b99)
    as (p0 & a95 & a99 & _ & _ & _ & _ & H95 & H99 & -> & ->);
    [by apply AppFacts.reachable_consistent|done|].
  exists a95, a99. split; [done|]. split; [done|]. split.
  - apply FigureMore.band_traces_ok.
    by apply (AlignMore.scanned_no_timestamp _ _ _ H95).
  - apply FigureMore.band_traces_ok.
    by apply (AlignMore.scanned_no_timestamp _ _ _ H99).
Qed.

Lemma figure_bands_drawn_iff_witness :
  ∃ i p b95 b99 a95 a99,
    (display_displacement Ex.files_E1 (Some "E1"%string) init).1
    = Ok (Shown i p b95 b99)
    ∧ read_anom_pid_chunked (WROC_A95_PATH Ex.files_E1) (PyStr.strip "E1")
        DEFAULT_CHUNKSIZE = Ok a95
    ∧ read_anom_pid_chunked (WROC_A99_PATH Ex.files_E1) (PyStr.strip "E1")
        DEFAULT_CHUNKSIZE = Ok a99
    ∧ (band_traces "95" b95 = [] ↔ p = [] ∨ a95 = [])
    ∧ (band_traces "99" b99 = [] ↔ p = [] ∨ a99 = []).
Proof.
  eexists _, _, _, _.
  assert (Hrun : (display_displacement Ex.files_E1 (Some "E1"%string) init).1
                 = Ok (Shown _ _ _ _)) by (vm_compute; reflexivity).
  destruct (figure_bands_drawn_iff Ex.files_E1 init "E1"%string _ _ _ _
              (reach_init Ex.files_E1) Hrun) as (a95 & a99 & H).
  exists a95, a99. split; [exact Hrun|exact H].
Defined.

(** X14. The figure is well formed. In every state of the running
    application, when the callback returns a figure: it has between 2 and 9
    traces; the first two are drawn over all rows of the displacement
    series, which has rows; every trace has as many x as y values and no
    missing x value; and every x value of the prediction trace and of the
    band traces is a date of the prediction frame. *)
Theorem figure_well_formed
    (fs : Files) (s : State) (hovertext : string)
    (i p : SeriesFrame) (b95 b99 : BandFrame) :
  reachable fs s →
  (display_displacement fs (Some hovertext) s).1 = Ok (Shown i p b95 b99) →
  let fig := figure i p b95 b99 in
  (2 ≤ length fig ≤ 9)%nat
  ∧ Forall (fun t => trace_ok i t ∧ trace_y t = tp_value <$> DF.rows i
                     ∧ trace_y t ≠ [])
      (take 2 fig)
  ∧ Forall (trace_ok p) (drop 2 fig).
Proof.
  intros Hreach Hrun fig.
  destruct (FigureFacts.shown_inv fs s hovertext i p b95 b99)
    as (p0 & a95 & a99 & _ & Hi & _ & _ & H95 & H99 & -> & ->);
    [by apply AppFacts.reachable_consistent|done|].
  apply AlignMore.scanned_no_timestamp in H95, H99.
  destruct (FigureMore.band_traces_ok "95" p a95 H95) as (_ & Hl95 & Hok95).
  destruct (FigureMore.band_traces_ok "99" p a99 H99) as (_ & Hl99 & Hok99).
  unfold fig, figure. split; [|split].
  - cbn [app length]. rewrite !length_app.
    destruct (negb (DF.empty p)); simpl; lia.
  - cbn [app take]. repeat (apply Forall_cons; split); try constructor;
      try apply FigureMore.series_trace_ok; try done.
    + destruct i; [done|by simpl].
    + destruct i; [done|by simpl].
  - cbn [app drop]. apply Forall_app. split; [|by apply Forall_app].
    destruct (negb (DF.empty p)); [|constructor].
    apply Forall_cons. split; [apply FigureMore.series_trace_ok|constructor].
Qed.

Lemma figure_well_formed_witness :
  ∃ i p b95 b99,
    (display_displacement Ex.files_full (Some "E1"%string) init).1
    = Ok (Shown i p b95 b99)
    ∧ (2 ≤ length (figure i p b95 b99) ≤ 9)%nat
    ∧ Forall (fun t => trace_ok i t ∧ trace_y t = tp_value <$> DF.rows i
                       ∧ trace_y t ≠ [])
        (take 2 (figure i p b95 b99))
    ∧ Forall (trace_ok p) (drop 2 (figure i p b95 b99)).
Proof.
  eexists _, _, _, _. split; [vm_compute; reflexivity|].
  apply (figure_well_formed Ex.files_full init "E1"%string).
  - apply reach_init.
  - vm_compute. reflexivity.
Defined.

Module MarkerFacts.
Import DF DFFacts.

Lemma last_n_fmap {A B : Type} (f : A → B) n (l : list A) :
  last_n n (f <$> l) = f <$> last_n n l.
Proof. unfold last_n. by rewrite length_fmap, fmap_drop. Qed.

Lemma filter_flagged_fields (rs : list AnomalyBandRecord) :
  fields <$> List.filter (fun r => is_one (is_anomaly (fields r))) rs
  = List.filter (fun r => is_one (is_anomaly r)) (fields <$> rs).
Proof.
  induction rs as [|r rs IH]; [done|]. cbn [List.filter fmap list_fmap].
  destruct (is_one (is_anomaly (fields r))); cbn [fmap list_fmap];
    [f_equal|]; exact IH.
Qed.

(** The records the anomalies trace is drawn from, by their fields. *)
Lemma selected_fields path q (p : SeriesFrame) (a : BandFrame) :
  read_anom_pid_chunked path q DEFAULT_CHUNKSIZE = Ok a →
  p ≠ [] → a ≠ [] →
  length a = length (List.filter (Scan.matches_query q) path)
  ∧ fields <$> rows (select (fun r => is_one (is_anomaly (fields r)))
                       (align_frames p a))
    = (fun r => fields (Scan.scanned_row q r))
      <$> List.filter (fun r => normalize_flag (is_anomaly r))
            (last_n (Nat.min (length p) (length a))
               (List.filter (Scan.matches_query q) path)).
Proof.
  rewrite ScanMore.scan_result by done. intros [= <-] Hp Ha.
  set (m := List.filter (Scan.matches_query q) path) in *.
  change (map (Scan.scanned_row q) m) with (Scan.scanned_row q <$> m) in *.
  assert (Hlen : length (range_index (Scan.scanned_row q <$> m)) = length m)
    by by rewrite length_range_index, length_fmap.
  split; [done|].
  destruct (AlignMore.align_frames_run p _ Hp Ha) as (_ & _ & _ & _ & Hf).
  rewrite rows_select, filter_flagged_fields, Hf.
  rewrite rows_range_index, last_n_fmap, <- list_fmap_compose, Hlen.
  set (tl := last_n (Nat.min (length p) (length m)) m). clearbody tl.
  induction tl as [|r tl IH]; [done|]. cbn [fmap list_fmap List.filter].
  change (is_one (is_anomaly ((fields ∘ Scan.scanned_row q) r)))
    with (is_one (Int8 (Z.b2z (normalize_flag (is_anomaly r))))).
  destruct (normalize_flag (is_anomaly r)); cbn [is_one Z.b2z Z.eqb Pos.eqb];
    cbn [fmap list_fmap]; [f_equal|]; exact IH.
Qed.

Lemma band_trace_y name mode col (a : BandFrame) :
  trace_y (band_trace name mode col a) = col <$> (fields <$> rows a).
Proof. unfold band_trace. simpl. by rewrite <- list_fmap_compose. Qed.

End MarkerFacts.

(** X15. Which anomalies are marked. For a prediction frame and a scanner
    frame that both have rows, take the rows of the long file that match the
    id, keep the last n = min(len(prediction), number of matches) of them,
    and of those the ones whose flag text normalises to true. If there is
    none the band has its two bound traces only; otherwise its third trace
    is the anomalies trace, drawn from exactly those rows: their actual
    values, one point each. *)
Theorem anomalies_trace_points
    (path : LongFile) (q level : string) (p : SeriesFrame) (a : BandFrame) :
  read_anom_pid_chunked path q DEFAULT_CHUNKSIZE = Ok a →
  p ≠ [] → a ≠ [] →
  let m := List.filter (Scan.matches_query q) path in
  let flagged :=
    List.filter (fun r => normalize_flag (is_anomaly r))
      (last_n (Nat.min (length p) (length m)) m) in
  (flagged = [] → length (band_traces level (align_frames p a)) = 2%nat)
  ∧ (flagged ≠ [] →
     ∃ t, band_traces level (align_frames p a) !! 2%nat = Some t
          ∧ trace_name t = ("Anomalies p=" ++ level)%string
          ∧ trace_y t = actual_value <$> flagged
          ∧ length (trace_x t) = length flagged).
Proof.
  intros Hread Hp Ha m flagged.
  destruct (MarkerFacts.selected_fields path q p a Hread Hp Ha) as [Hlen Hsel].
  fold m in Hlen, Hsel. rewrite Hlen in Hsel. fold flagged in Hsel.
  destruct (AlignMore.align_frames_run p a Hp Ha) as (H1 & Hl & _ & Hts & _).
  assert (Hne : align_frames p a ≠ [])
    by (intros E; rewrite E in Hl; simpl in Hl; lia).
  unfold band_traces.
  rewrite (proj2 (DFFacts.empty_false _) Hne),
    (AlignMore.has_timestamp_column_Some _ _ Hts).
  cbn [negb andb app].
  set (an := DF.select _ (align_frames p a)) in *.
  assert (Han : length an = length flagged).
  { by rewrite <- (DFFacts.length_rows an), <- (length_fmap fields), Hsel,
      length_fmap. }
  split.
  - intros Hnone. rewrite Hnone in Han. by destruct an.
  - intros Hsome. destruct (DF.empty an) eqn:Ee.
    { apply DFFacts.empty_true in Ee. rewrite Ee in Han.
      destruct flagged; [done|simpl in Han; lia]. }
    cbn [negb lookup list_lookup]. eexists. split; [reflexivity|].
    split; [done|]. split.
    + rewrite MarkerFacts.band_trace_y, Hsel, <- list_fmap_compose. done.
    + unfold band_trace. cbn [trace_x].
      by rewrite length_map, DFFacts.length_rows.
Qed.

Lemma anomalies_trace_points_witness :
  ∃ t, band_traces "95" (align_frames Ex.pred10
                           (DF.range_index
                              (map (Scan.scanned_row "E1")
                                 (List.filter (Scan.matches_query "E1")
                                    Ex.long_E1)))) !! 2%nat = Some t
       ∧ trace_name t = ("Anomalies p=" ++ "95")%string
       ∧ trace_y t
         = actual_value
           <$> List.filter (fun r => normalize_flag (is_anomaly r))
                 (last_n
                    (Nat.min (length Ex.pred10)
                       (length (List.filter (Scan.matches_query "E1")
                                  Ex.long_E1)))
                    (List.filter (Scan.matches_query "E1") Ex.long_E1))
       ∧ length (trace_x t)
         = length
             (List.filter (fun r => normalize_flag (is_anomaly r))
                (last_n
                   (Nat.min (length Ex.pred10)
                      (length (List.filter (Scan.matches_query "E1")
                                 Ex.long_E1)))
                   (List.filter (Scan.matches_query "E1") Ex.long_E1))).
Proof.
  apply (proj2 (anomalies_trace_points Ex.long_E1 "E1" "95" Ex.pred10 _
                  ltac:(vm_compute; reflexivity)
                  ltac:(discriminate) ltac:(discriminate))).
  vm_compute. discriminate.
Defined.

(** * The provisioning script *)

Module DownloadFacts.
Import Download.

Lemma append_assoc (a b c : string) : ((a ++ b) ++ c = a ++ (b ++ c))%string.
Proof.
  induction a as [|x a IH]; [done|].
  change (String x ((a ++ b) ++ c) = String x (a ++ (b ++ c)))%string.
  by rewrite IH.
Qed.

Lemma append_inj (a b c : string) : (a ++ b = a ++ c)%string → b = c.
Proof.
  induction a as [|x a IH]; [done|].
  change (String x (a ++ b) = String x (a ++ c) → b = c)%string.
  intros [= H]. by apply IH.
Qed.

Lemma FILES_cases (P : string → Prop) fn :
  fn ∈ FILES →
  P "wroclaw_caly.csv"%string → P "wroclaw_geo.csv"%string →
  P "predictions_ml.csv"%string → P "anomaly_95.csv"%string →
  P "anomaly_99.csv"%string → P fn.
Proof.
  unfold FILES. intros Hin ? ? ? ? ?.
  repeat (apply elem_of_cons in Hin as [->|Hin]; [done|]).
  by apply elem_of_nil in Hin.
Qed.

Lemma path_join_FILES d fn :
  fn ∈ FILES → path_join d fn = (join_prefix d ++ fn)%string.
Proof. intros Hin. pattern fn. by apply (FILES_cases _ fn Hin). Qed.

Lemma part_path_FILES d fn :
  fn ∈ FILES → part_path d fn = (join_prefix d ++ (fn ++ ".part"))%string.
Proof.
  intros Hin. unfold part_path. by rewrite path_join_FILES, append_assoc.
Qed.

(** Different files have different paths, and no file's path is another
    file's temporary path. *)
Lemma out_inj d fi fj :
  fi ∈ FILES → fj ∈ FILES → path_join d fi = path_join d fj → fi = fj.
Proof.
  intros Hi Hj. rewrite !path_join_FILES by done. apply append_inj.
Qed.

Lemma part_inj d fi fj :
  fi ∈ FILES → fj ∈ FILES → part_path d fi = part_path d fj → fi = fj.
Proof.
  intros Hi Hj. rewrite !part_path_FILES by done.
  intros H%append_inj. revert H.
  pattern fi; apply (FILES_cases _ fi Hi);
    pattern fj; apply (FILES_cases _ fj Hj); by intros [=].
Qed.

Lemma out_ne_part d fi fj :
  fi ∈ FILES → fj ∈ FILES → path_join d fi ≠ part_path d fj.
Proof.
  intros Hi Hj. rewrite path_join_FILES, part_path_FILES by done.
  intros H%append_inj. revert H.
  pattern fi; apply (FILES_cases _ fi Hi);
    pattern fj; apply (FILES_cases _ fj Hj); by intros [=].
Qed.

(** What a download that is answered leaves. *)
Lemma download_Some net url out_path fs body :
  get net url = Some body →
  download net url out_path fs
  = Some (<[out_path := body]>
            (delete (out_path ++ ".part")%string
               (<[(out_path ++ ".part")%string := body]> fs))).
Proof. intros H. unfold download. by rewrite H, lookup_insert_eq. Qed.

Lemma download_None net url out_path fs :
  get net url = None → download net url out_path fs = None.
Proof. intros H. unfold download. by rewrite H. Qed.

Lemma downloaded_lookup (fs : FS) out_path body p :
  p ≠ out_path → p ≠ (out_path ++ ".part")%string →
  (<[out_path := body]>
     (delete (out_path ++ ".part")%string
        (<[(out_path ++ ".part")%string := body]> fs))) !! p = fs !! p.
Proof.
  intros H1 H2.
  by rewrite lookup_insert_ne, lookup_delete_ne, lookup_insert_ne.
Qed.

Lemma downloaded_out (fs : FS) out_path body :
  (<[out_path := body]>
     (delete (out_path ++ ".part")%string
        (<[(out_path ++ ".part")%string := body]> fs))) !! out_path
  = Some body.
Proof. apply lookup_insert_eq. Qed.

Lemma out_ne_own_part out_path : (out_path ++ ".part")%string ≠ out_path.
Proof.
  intros H. assert (Hl := f_equal String.length H). revert Hl. clear.
  induction out_path as [|c t IH]; simpl; [done|]. intros [= ?]. auto.
Qed.

Lemma downloaded_part (fs : FS) out_path body :
  (<[out_path := body]>
     (delete (out_path ++ ".part")%string
        (<[(out_path ++ ".part")%string := body]> fs)))
    !! (out_path ++ ".part")%string = None.
Proof.
  rewrite lookup_insert_ne by (intros H; by apply (out_ne_own_part out_path)).
  apply lookup_delete_eq.
Qed.

(** One step of the loop, by cases. *)
Lemma fetch_cons net d assets fn rest fs :
  (present fs (path_join d fn) = true
   ∧ fetch net d assets (fn :: rest) fs = fetch net d assets rest fs)
  ∨ (present fs (path_join d fn) = false
     ∧ assets !! fn = None
     ∧ fetch net d assets (fn :: rest) fs = (LookupError, fs))
  ∨ (present fs (path_join d fn) = false
     ∧ ∃ a, assets !! fn = Some a
       ∧ ((get net (browser_download_url a) = None
           ∧ fetch net d assets (fn :: rest) fs = (HTTPError, fs))
          ∨ (∃ body,
               get net (browser_download_url a) = Some body
               ∧ fetch net d assets (fn :: rest) fs
                 = fetch net d assets rest
                     (<[path_join d fn := body]>
                        (delete (part_path d fn)
                           (<[part_path d fn := body]> fs)))))).
Proof.
  cbn [fetch]. destruct (present fs (path_join d fn)); [by left|right].
  destruct (assets !! fn) as [a|]; [right|by left].
  split; [done|]. exists a. split; [done|].
  destruct (get net (browser_download_url a)) as [body|] eqn:Hg.
  - right. exists body. split; [done|]. by rewrite (download_Some _ _ _ _ body).
  - left. split; [done|]. by rewrite download_None.
Qed.

End DownloadFacts.

Module FetchFacts.
Import Download DownloadFacts.

Section Loop.
Context (net : Net) (d : string) (assets : gmap string Asset).

(** Only the paths and temporary paths of the files still to do can
    change. *)
Lemma fetch_frame fns fs o fs' p :
  fetch net d assets fns fs = (o, fs') →
  (∀ fn, fn ∈ fns → p ≠ path_join d fn ∧ p ≠ part_path d fn) →
  fs' !! p = fs !! p.
Proof.
  revert fs. induction fns as [|fn rest IH]; intros fs Hrun Hp.
  { by injection Hrun as _ ->. }
  assert (Hrest : ∀ fn', fn' ∈ rest →
                         p ≠ path_join d fn' ∧ p ≠ part_path d fn')
    by (intros fn' Hin; apply Hp; by right).
  destruct (Hp fn ltac:(left)) as [Hout Hpart].
  destruct (fetch_cons net d assets fn rest fs)
    as [[_ E] | [(_ & _ & E) | (_ & a & _ & [[_ E] | (body & _ & E)])]];
    rewrite E in Hrun.
  - by apply IH.
  - by injection Hrun as _ ->.
  - by injection Hrun as _ ->.
  - rewrite (IH _ Hrun Hrest). by apply downloaded_lookup.
Qed.

(** A file that is there and not empty is never touched. *)
Lemma fetch_kept fns fs o fs' fn :
  fns ⊆ FILES → fn ∈ FILES →
  fetch net d assets fns fs = (o, fs') →
  present fs (path_join d fn) = true →
  fs' !! path_join d fn = fs !! path_join d fn.
Proof.
  intros Hsub Hfn. revert fs.
  induction fns as [|fn0 rest IH]; intros fs Hrun Hpres.
  { by injection Hrun as _ ->. }
  assert (Hfn0 : fn0 ∈ FILES) by (apply Hsub; left).
  assert (Hrest : rest ⊆ FILES) by (intros x Hx; apply Hsub; by right).
  destruct (fetch_cons net d assets fn0 rest fs)
    as [[_ E] | [(_ & _ & E) | (Habs & a & _ & [[_ E] | (body & _ & E)])]];
    rewrite E in Hrun.
  - by apply IH.
  - by injection Hrun as _ ->.
  - by injection Hrun as _ ->.
  - assert (Hne : path_join d fn ≠ path_join d fn0)
      by (intros H; rewrite H in Hpres; congruence).
    assert (Hlk : (<[path_join d fn0 := body]>
                     (delete (part_path d fn0)
                        (<[part_path d fn0 := body]> fs)))
                    !! path_join d fn = fs !! path_join d fn).
    { apply downloaded_lookup; [done|]. by apply out_ne_part. }
    rewrite <- Hlk. apply IH; [done..|]. unfold present in *.
    by rewrite Hlk.
Qed.

(** A file that holds its asset's body keeps holding it. *)
Lemma fetch_stable_out fns fs o fs' fn a body :
  fns ⊆ FILES → fn ∈ FILES →
  assets !! fn = Some a → get net (browser_download_url a) = Some body →
  fetch net d assets fns fs = (o, fs') →
  fs !! path_join d fn = Some body → fs' !! path_join d fn = Some body.
Proof.
  intros Hsub Hfn Ha Hbody. revert fs.
  induction fns as [|fn0 rest IH]; intros fs Hrun Hlk.
  { by injection Hrun as _ ->. }
  assert (Hfn0 : fn0 ∈ FILES) by (apply Hsub; left).
  assert (Hrest : rest ⊆ FILES) by (intros x Hx; apply Hsub; by right).
  destruct (fetch_cons net d assets fn0 rest fs)
    as [[_ E] | [(_ & _ & E) | (_ & a0 & Ha0 & [[_ E] | (body0 & Hb0 & E)])]];
    rewrite E in Hrun.
  - by apply (IH Hrest fs).
  - by injection Hrun as _ ->.
  - by injection Hrun as _ ->.
  - apply (IH Hrest _ Hrun). destruct (decide (fn = fn0)) as [->|Hne].
    + rewrite downloaded_out. congruence.
    + rewrite downloaded_lookup; [done| |by apply out_ne_part].
      intros H. by apply Hne, (out_inj d).
Qed.

(** A temporary file that is not there does not come back. *)
Lemma fetch_stable_part fns fs o fs' fn :
  fns ⊆ FILES → fn ∈ FILES →
  fetch net d assets fns fs = (o, fs') →
  fs !! part_path d fn = None → fs' !! part_path d fn = None.
Proof.
  intros Hsub Hfn. revert fs.
  induction fns as [|fn0 rest IH]; intros fs Hrun Hlk.
  { by injection Hrun as _ ->. }
  assert (Hfn0 : fn0 ∈ FILES) by (apply Hsub; left).
  assert (Hrest : rest ⊆ FILES) by (intros x Hx; apply Hsub; by right).
  destruct (fetch_cons net d assets fn0 rest fs)
    as [[_ E] | [(_ & _ & E) | (_ & a0 & Ha0 & [[_ E] | (body0 & Hb0 & E)])]];
    rewrite E in Hrun.
  - by apply (IH Hrest fs).
  - by injection Hrun as _ ->.
  - by injection Hrun as _ ->.
  - apply (IH Hrest _ Hrun). destruct (decide (fn = fn0)) as [->|Hne].
    + apply downloaded_part.
    + rewrite downloaded_lookup; [done| |].
      * intros H. by apply (out_ne_part d fn0 fn).
      * intros H. by apply Hne, (part_inj d).
Qed.

(** After a run that ends normally every file is in place. *)
Lemma fetch_in_place fns fs fs' :
  fns ⊆ FILES →
  fetch net d assets fns fs = (Done, fs') →
  ∀ fn, fn ∈ fns → in_place net d assets fs' fn.
Proof.
  intros Hsub. revert fs.
  induction fns as [|fn0 rest IH]; intros fs Hrun fn Hin.
  { by apply elem_of_nil in Hin. }
  assert (Hfn0 : fn0 ∈ FILES) by (apply Hsub; left).
  assert (Hrest : rest ⊆ FILES) by (intros x Hx; apply Hsub; by right).
  destruct (fetch_cons net d assets fn0 rest fs)
    as [[Hp E] | [(_ & _ & E) | (_ & a0 & Ha0 & [[_ E] | (body0 & Hb0 & E)])]];
    rewrite E in Hrun; try done.
  - apply elem_of_cons in Hin as [->|Hin]; [|by apply (IH Hrest fs)].
    left. unfold present. rewrite (fetch_kept rest fs Done fs' fn0); done.
  - apply elem_of_cons in Hin as [->|Hin]; [|by apply (IH Hrest _ Hrun)].
    right. exists a0, body0. split; [done|]. split; [done|]. split.
    + apply (fetch_stable_out rest _ Done fs' fn0 a0 body0
               Hrest Hfn0 Ha0 Hb0 Hrun).
      apply downloaded_out.
    + apply (fetch_stable_part rest _ Done fs' fn0 Hrest Hfn0 Hrun).
      apply downloaded_part.
Qed.

(** With every file in place the loop does nothing. *)
Lemma fetch_fixed fns fs :
  (∀ fn, fn ∈ fns → in_place net d assets fs fn) →
  fetch net d assets fns fs = (Done, fs).
Proof.
  induction fns as [|fn0 rest IH]; intros Hall; [done|].
  assert (Hrest : ∀ fn, fn ∈ rest → in_place net d assets fs fn)
    by (intros fn Hin; apply Hall; by right).
  cbn [fetch]. destruct (present fs (path_join d fn0)) eqn:Hp; [by apply IH|].
  destruct (Hall fn0 ltac:(left)) as [?|(a & body & Ha & Hb & Hout & Hpart)];
    [congruence|].
  rewrite Ha, (download_Some _ _ _ _ body Hb).
  fold (part_path d fn0).
  replace (<[path_join d fn0 := body]>
             (delete (part_path d fn0) (<[part_path d fn0 := body]> fs)))
    with fs; [by apply IH|].
  apply map_eq. intros p. symmetry.
  destruct (decide (p = path_join d fn0)) as [->|H1].
  { by rewrite lookup_insert_eq. }
  rewrite lookup_insert_ne by done.
  destruct (decide (p = part_path d fn0)) as [->|H2].
  { by rewrite lookup_delete_eq. }
  by rewrite lookup_delete_ne, lookup_insert_ne.
Qed.
End Loop.

(** The names the release has no asset for. *)
Lemma assets_by_name_lookup (l : list Asset) fn :
  assets_by_name l !! fn = None ↔ fn ∉ asset_name <$> l.
Proof.
  unfold assets_by_name.
  assert (H : ∀ m : gmap string Asset,
             fold_left (fun m a => <[asset_name a := a]> m) l m !! fn = None
             ↔ m !! fn = None ∧ fn ∉ asset_name <$> l).
  { induction l as [|a l IH]; intros m; simpl.
    - split; [intros ?; split; [done|apply not_elem_of_nil]|by intros [? _]].
    - rewrite IH, not_elem_of_cons.
      destruct (decide (asset_name a = fn)) as [->|Hne].
      + rewrite lookup_insert_eq.
        split; [by intros [? _]|by intros (_ & ? & _)].
      + rewrite lookup_insert_ne by done.
        split; [intros [? ?]|intros (? & _ & ?)]; repeat split; auto. }
  rewrite H, lookup_empty. split; [by intros [_ ?]|by split].
Qed.

End FetchFacts.

Module MainFacts.
Import Download DownloadFacts FetchFacts.

Lemma fetch_outcome net d assets fns fs :
  (∀ fn, fn ∈ fns → assets !! fn ≠ None) →
  (fetch net d assets fns fs).1 = Done
  ∨ (fetch net d assets fns fs).1 = HTTPError.
Proof.
  revert fs. induction fns as [|fn rest IH]; intros fs Hall; [by left|].
  assert (Hrest : ∀ fn', fn' ∈ rest → assets !! fn' ≠ None)
    by (intros fn' Hin; apply Hall; by right).
  destruct (fetch_cons net d assets fn rest fs)
    as [[_ E] | [(_ & Habs & _) | (_ & a & _ & [[_ E] | (body & _ & E)])]];
    rewrite ?E; auto.
  by destruct (Hall fn ltac:(left)).
Qed.

Lemma missing_names (l : list Asset) :
  List.filter (fun fn => bool_decide (assets_by_name l !! fn = None)) FILES
  = List.filter (fun fn => bool_decide (fn ∉ asset_name <$> l)) FILES.
Proof.
  apply List.filter_ext. intros fn. apply bool_decide_ext.
  apply assets_by_name_lookup.
Qed.

Lemma filter_nil_all {A : Type} (f : A → bool) (l : list A) :
  List.filter f l = [] → ∀ x, x ∈ l → f x = false.
Proof.
  induction l as [|y l IH]; simpl; [by intros _ x ?%elem_of_nil|].
  destruct (f y) eqn:Hy; [done|].
  intros Hl x [->|Hx]%elem_of_cons; auto.
Qed.

Lemma assets_by_name_Some (l : list Asset) fn a :
  assets_by_name l !! fn = Some a → a ∈ l ∧ asset_name a = fn.
Proof.
  unfold assets_by_name.
  assert (H : ∀ m : gmap string Asset,
             fold_left (fun m a => <[asset_name a := a]> m) l m !! fn = Some a
             → m !! fn = Some a ∨ (a ∈ l ∧ asset_name a = fn)).
  { induction l as [|a0 l IH]; intros m; simpl; [by left|].
    intros [Hm|[Hin Hn]]%IH.
    - destruct (decide (asset_name a0 = fn)) as [<-|Hne].
      + rewrite lookup_insert_eq in Hm. injection Hm as ->.
        right. split; [left|done].
      + rewrite lookup_insert_ne in Hm by done. by left.
    - right. split; [by right|done]. }
  intros [Hm|?]%H; [|done]. by rewrite lookup_empty in Hm.
Qed.

(** What a run that ends normally did to each file, by whether it was there
    before. *)
Lemma fetch_done_cases net d assets fns fs fs' fn :
  fns ⊆ FILES → fn ∈ fns →
  fetch net d assets fns fs = (Done, fs') →
  (present fs (path_join d fn) = true
   ∧ fs' !! path_join d fn = fs !! path_join d fn)
  ∨ (present fs (path_join d fn) = false
     ∧ ∃ a body,
         assets !! fn = Some a
         ∧ get net (browser_download_url a) = Some body
         ∧ fs' !! path_join d fn = Some body
         ∧ fs' !! part_path d fn = None).
Proof.
  intros Hsub. revert fs.
  induction fns as [|fn0 rest IH]; intros fs Hin Hrun.
  { by apply elem_of_nil in Hin. }
  assert (Hfn0 : fn0 ∈ FILES) by (apply Hsub; left).
  assert (Hrest : rest ⊆ FILES) by (intros x Hx; apply Hsub; by right).
  destruct (fetch_cons net d assets fn0 rest fs)
    as [[Hp0 E] | [(_ & _ & E) | (Hp0 & a & Ha & [[_ E] | (body & Hb & E)])]];
    rewrite E in Hrun; try done.
  - destruct (decide (fn = fn0)) as [->|Hne].
    + left. split; [done|].
      by apply (fetch_kept net d assets rest fs Done).
    + apply (IH Hrest fs); [|done].
      apply elem_of_cons in Hin as [?|?]; done.
  - destruct (decide (fn = fn0)) as [->|Hne].
    + right. split; [done|]. exists a, body. split; [done|]. split; [done|].
      split.
      * apply (fetch_stable_out net d assets rest _ Done fs' fn0 a body
                 Hrest Hfn0 Ha Hb Hrun).
        apply downloaded_out.
      * apply (fetch_stable_part net d assets rest _ Done fs' fn0
                 Hrest Hfn0 Hrun).
        apply downloaded_part.
    + assert (Hfn : fn ∈ rest)
        by (apply elem_of_cons in Hin as [?|?]; done).
      assert (Hlk : (<[path_join d fn0 := body]>
                       (delete (part_path d fn0)
                          (<[part_path d fn0 := body]> fs)))
                      !! path_join d fn = fs !! path_join d fn).
      { apply downloaded_lookup; [|by apply out_ne_part; auto].
        intros H. apply Hne, (out_inj d); auto. }
      destruct (IH Hrest _ Hfn Hrun) as [[Hp Hk]|[Hp Hd]].
      * left. unfold present in *. rewrite Hlk in Hp, Hk. done.
      * right. unfold present in *. rewrite Hlk in Hp. done.
Qed.

End MainFacts.

(** X16. An incomplete release. When the release lacks an asset for some of
    the five files, the script exits with status 1 naming exactly the files
    without an asset, in the order of its list, and has written nothing.
    When the release has them all, the script never exits that way and never
    fails looking an asset up: it ends normally or with an HTTP error. *)
Theorem main_missing_assets
    (net : Download.Net) (d : string) (fs : Download.FS)
    (l : list Download.Asset) :
  Download.release_assets net = Some l →
  let missing :=
    List.filter (fun fn => bool_decide (fn ∉ Download.asset_name <$> l))
      Download.FILES in
  (missing ≠ [] → Download.main net d fs = (Download.Exit1 missing, fs))
  ∧ (missing = [] →
     (Download.main net d fs).1 = Download.Done
     ∨ (Download.main net d fs).1 = Download.HTTPError).
Proof.
  intros Hrel missing. unfold Download.main. rewrite Hrel.
  rewrite MainFacts.missing_names. fold missing.
  split; intros Hm.
  - by destruct missing.
  - rewrite Hm. apply MainFacts.fetch_outcome. intros fn Hin Hnone.
    apply FetchFacts.assets_by_name_lookup in Hnone.
    apply (MainFacts.filter_nil_all _ _ Hm) in Hin.
    by apply bool_decide_eq_false_1 in Hin.
Qed.

Lemma main_missing_assets_witness :
  Download.main DownloadEx.net_partial "/var/data" DownloadEx.fs_one
  = (Download.Exit1 ["anomaly_95.csv"; "anomaly_99.csv"]%string,
     DownloadEx.fs_one).
Proof.
  apply (proj1 (main_missing_assets DownloadEx.net_partial "/var/data"
                  DownloadEx.fs_one _ eq_refl)).
  vm_compute. discriminate.
Defined.

(** X17. After a normal end every file is there. When the script ends
    normally, each of the five files exists under the data directory: one
    that was there before and not empty is exactly as it was (it is never
    fetched again), and any other holds the body that its asset's download
    URL answered with, with no [.part] file left beside it. *)
Theorem main_done
    (net : Download.Net) (d : string) (fs fs' : Download.FS) :
  Download.main net d fs = (Download.Done, fs') →
  ∃ l, Download.release_assets net = Some l
       ∧ ∀ fn, fn ∈ Download.FILES →
           (Download.present fs (Download.path_join d fn) = true
            ∧ fs' !! Download.path_join d fn = fs !! Download.path_join d fn)
           ∨ (Download.present fs (Download.path_join d fn) = false
              ∧ ∃ a body,
                  a ∈ l ∧ Download.asset_name a = fn
                  ∧ Download.get net (Download.browser_download_url a)
                    = Some body
                  ∧ fs' !! Download.path_join d fn = Some body
                  ∧ fs' !! Download.part_path d fn = None).
Proof.
  unfold Download.main.
  destruct (Download.release_assets net) as [l|]; [|done].
  destruct (List.filter _ Download.FILES); [|done].
  intros Hrun. exists l. split; [done|]. intros fn Hin.
  destruct (MainFacts.fetch_done_cases net d _ Download.FILES fs fs' fn
              ltac:(done) Hin Hrun)
    as [?|(Hp & a & body & Ha & Hb & Hout & Hpart)]; [by left|].
  right. split; [done|]. exists a, body.
  apply MainFacts.assets_by_name_Some in Ha as [Hal Hname]. done.
Qed.

Lemma main_done_witness :
  ∃ l, Download.release_assets DownloadEx.net_full = Some l
       ∧ ∀ fn, fn ∈ Download.FILES →
           (Download.present DownloadEx.fs_one
              (Download.path_join "/var/data" fn) = true
            ∧ (Download.main DownloadEx.net_full "/var/data"
                 DownloadEx.fs_one).2 !! Download.path_join "/var/data" fn
              = DownloadEx.fs_one !! Download.path_join "/var/data" fn)
           ∨ (Download.present DownloadEx.fs_one
                (Download.path_join "/var/data" fn) = false
              ∧ ∃ a body,
                  a ∈ l ∧ Download.asset_name a = fn
                  ∧ Download.get DownloadEx.net_full
                      (Download.browser_download_url a) = Some body
                  ∧ (Download.main DownloadEx.net_full "/var/data"
                       DownloadEx.fs_one).2
                      !! Download.path_join "/var/data" fn = Some body
                  ∧ (Download.main DownloadEx.net_full "/var/data"
                       DownloadEx.fs_one).2
                      !! Download.part_path "/var/data" fn = None).
Proof.
  apply (main_done DownloadEx.net_full "/var/data" DownloadEx.fs_one).
  vm_compute. reflexivity.
Defined.

(** X18. What a run can touch. Whatever way the script ends (normally, with
    exit status 1, or on an HTTP error status), the only paths whose content
    can differ afterwards are the five files' paths under the data directory
    and those paths with [.part] appended; and a file that was there and not
    empty is never overwritten. *)
Theorem main_frame
    (net : Download.Net) (d : string) (fs : Download.FS) :
  (∀ p, (∀ fn, fn ∈ Download.FILES →
               p ≠ Download.path_join d fn ∧ p ≠ Download.part_path d fn) →
        (Download.main net d fs).2 !! p = fs !! p)
  ∧ (∀ fn, fn ∈ Download.FILES →
           Download.present fs (Download.path_join d fn) = true →
           (Download.main net d fs).2 !! Download.path_join d fn
           = fs !! Download.path_join d fn).
Proof.
  unfold Download.main.
  destruct (Download.release_assets net) as [l|]; [|done].
  destruct (List.filter _ Download.FILES); [|done].
  split.
  - intros p Hp.
    destruct (Download.fetch net d _ Download.FILES fs) as [o fs'] eqn:E.
    exact (FetchFacts.fetch_frame net d _ Download.FILES fs o fs' p E Hp).
  - intros fn Hin Hp.
    destruct (Download.fetch net d _ Download.FILES fs) as [o fs'] eqn:E.
    exact (FetchFacts.fetch_kept net d _ Download.FILES fs o fs' fn
             ltac:(done) Hin E Hp).
Qed.

(** X19. Running the script again. After a run that ended normally, a
    second run against the same release ends normally and leaves every path
    as the first run left it. *)
Theorem main_idempotent
    (net : Download.Net) (d : string) (fs fs' : Download.FS) :
  Download.main net d fs = (Download.Done, fs') →
  Download.main net d fs' = (Download.Done, fs').
Proof.
  unfold Download.main.
  destruct (Download.release_assets net) as [l|]; [|done].
  destruct (List.filter _ Download.FILES); [|done].
  intros Hrun. apply FetchFacts.fetch_fixed.
  exact (FetchFacts.fetch_in_place net d _ Download.FILES fs fs'
           ltac:(done) Hrun).
Qed.

Lemma main_idempotent_witness :
  Download.main DownloadEx.net_full "/var/data"
    (Download.main DownloadEx.net_full "/var/data" DownloadEx.fs_one).2
  = (Download.Done,
     (Download.main DownloadEx.net_full "/var/data" DownloadEx.fs_one).2).
Proof.
  apply (main_idempotent DownloadEx.net_full "/var/data" DownloadEx.fs_one).
  vm_compute. reflexivity.
Defined.
